(** * Sidebar configuration cleanup (scripts/cleanup_requires_project.py)

    A shallow embedding of the migration script that removes the
    [requiresProject] flag from every sidebar configuration document, and
    the properties its specification states about it.

    - Python values decoded from a JSON column are the inductive [json]:
      [dict] is an association list in insertion order (Python dictionaries
      iterate in insertion order and never hold a key twice, see [dict_ok]),
      [list] is a list, [int] is [Z], [float] is a [spec_float], [str] is a
      [string] whose characters stand for the code points 0..255.
    - [clean_configuration_data] follows the source statement by statement:
      the loop over [items()] is a left fold whose accumulator is the
      dictionary [cleaned], and [cleaned[key] = ...] is [dict_set].
    - [dumps] is [json.dumps] with its default separators and ASCII escaping;
      the rendering of a float ([float.__repr__]) is a parameter.
    - [main] runs in a small state-and-exception monad over the table, the
      open transaction, the console and the sequence of database calls, any
      of which may raise; so may the call of [clean_configuration_data] on
      a document nested deeper than the interpreter's recursion limit
      allows ([clean_in]).
    - The table is a list that stands for the rows it holds: no answer of
      the store shows the order of that list, every answer is the rows in
      an arrangement the store chooses ([fetch], [arrange]). *)

From Stdlib Require Import ZArith String Ascii List Bool SpecFloat DecimalString Lia.
From stdpp Require Import base option list strings gmap.

Local Open Scope string_scope.
Local Open Scope list_scope.

(** ** JSON-like trees *)

Unset Elimination Schemes.
Inductive json : Type :=
| JNull
| JBool (b : bool)
| JInt (n : Z)
| JFloat (f : spec_float)
| JStr (s : string)
| JArr (items : list json)
| JObj (entries : list (string * json)).
Set Elimination Schemes.

(** Induction on trees, with the hypothesis for every element of an array
    and every value of a dictionary. *)
Definition json_ind (P : json -> Prop)
  (Hnull : P JNull)
  (Hbool : forall b, P (JBool b))
  (Hint : forall n, P (JInt n))
  (Hfloat : forall f, P (JFloat f))
  (Hstr : forall s, P (JStr s))
  (Harr : forall items, Forall P items -> P (JArr items))
  (Hobj : forall entries, Forall (fun kv => P (snd kv)) entries -> P (JObj entries))
  : forall v, P v :=
  fix go (v : json) : P v :=
    match v with
    | JNull => Hnull
    | JBool b => Hbool b
    | JInt n => Hint n
    | JFloat f => Hfloat f
    | JStr s => Hstr s
    | JArr items =>
        Harr items
          (list_ind (Forall P) (@List.Forall_nil _ P)
             (fun x l IH => @List.Forall_cons _ P x l (go x) IH) items)
    | JObj entries =>
        Hobj entries
          (list_ind (Forall (fun kv => P (snd kv))) (@List.Forall_nil _ _)
             (fun kv l IH =>
                @List.Forall_cons _ (fun kv => P (snd kv)) kv l (go (snd kv)) IH)
             entries)
    end.

(** The Python type of a decoded value. *)
Inductive pytype : Set :=
| NoneType | PyBool | PyInt | PyFloat | PyStr | PyList | PyDict.

Definition type_of (v : json) : pytype :=
  match v with
  | JNull => NoneType
  | JBool _ => PyBool
  | JInt _ => PyInt
  | JFloat _ => PyFloat
  | JStr _ => PyStr
  | JArr _ => PyList
  | JObj _ => PyDict
  end.

Definition is_scalar (v : json) : bool :=
  match v with
  | JArr _ | JObj _ => false
  | _ => true
  end.

(** *** Dictionaries *)

Definition keys (d : list (string * json)) : list string := map fst d.

Definition key_set (d : list (string * json)) : gset string :=
  list_to_set (keys d).

(** [d[k]] *)
Fixpoint dict_get (k : string) (d : list (string * json)) : option json :=
  match d with
  | [] => None
  | (k', v') :: d' => if String.eqb k' k then Some v' else dict_get k d'
  end.

(** [d[k] = v]: an existing key keeps its position, a new one goes last. *)
Fixpoint dict_set (k : string) (v : json) (d : list (string * json))
  : list (string * json) :=
  match d with
  | [] => [(k, v)]
  | (k', v') :: d' =>
      if String.eqb k' k then (k', v) :: d' else (k', v') :: dict_set k v d'
  end.

Fixpoint distinct (ks : list string) : bool :=
  match ks with
  | [] => true
  | k :: ks' => negb (existsb (String.eqb k) ks') && distinct ks'
  end.

(** The invariant of Python dictionaries: no key occurs twice, at any depth. *)
Fixpoint dict_ok (v : json) : bool :=
  match v with
  | JObj entries =>
      distinct (map fst entries) && forallb (fun kv => dict_ok (snd kv)) entries
  | JArr items => forallb dict_ok items
  | _ => true
  end.

(** *** Paths into a tree *)

Inductive step : Set :=
| Key (k : string)
| Idx (i : nat).

Fixpoint get_path (p : list step) (v : json) : option json :=
  match p with
  | [] => Some v
  | Key k :: p' =>
      match v with
      | JObj entries => dict_get k entries ≫= get_path p'
      | _ => None
      end
  | Idx i :: p' =>
      match v with
      | JArr items => items !! i ≫= get_path p'
      | _ => None
      end
  end.

Definition is_key (k : string) (s : step) : bool :=
  match s with
  | Key k' => String.eqb k' k
  | Idx _ => false
  end.

(** ** The transformer *)

Definition TARGET : string := "requiresProject".

Fixpoint clean_configuration_data (config_data : json) : json :=
  match config_data with
  | JObj entries =>
      JObj (fold_left
              (fun cleaned kv =>
                 if String.eqb (fst kv) TARGET then cleaned
                 else dict_set (fst kv) (clean_configuration_data (snd kv)) cleaned)
              entries [])
  | JArr items => JArr (map clean_configuration_data items)
  | other => other
  end.

(** The loop of the dictionary branch, from any [cleaned] built so far. *)
Definition clean_entries (entries cleaned : list (string * json))
  : list (string * json) :=
  fold_left
    (fun cleaned kv =>
       if String.eqb (fst kv) TARGET then cleaned
       else dict_set (fst kv) (clean_configuration_data (snd kv)) cleaned)
    entries cleaned.

(** Some key of the tree, at any depth, is the target. *)
Fixpoint mentions_target (v : json) : bool :=
  match v with
  | JObj entries =>
      existsb (fun kv => String.eqb (fst kv) TARGET || mentions_target (snd kv))
              entries
  | JArr items => existsb mentions_target items
  | _ => false
  end.

(** *** The call under the interpreter's recursion limit

    Every call of the function takes a frame of the interpreter, and before
    Python 3.12 so does the list comprehension of the list branch:
    [listcomp] is 1 there and 0 since. A call that finds no frame left
    raises [RecursionError]. [clean_in budget] is the call made with
    [budget] frames left; [frames] is the number of frames a tree needs. A
    value under a [requiresProject] key is skipped before any call is made
    for it. *)

(** What a run can raise: the error of the [n]-th database call, or the
    interpreter's [RecursionError]. *)
Inductive exn : Set :=
| DbError (n : nat)
| RecursionError.

Inductive result (A : Type) : Type :=
| Ok (a : A)
| Raised (e : exn).
Arguments Ok {A} a.
Arguments Raised {A} e.

(** A list comprehension: the elements in order, until one raises. *)
Fixpoint collect {A B : Type} (f : A -> result B) (l : list A)
  : result (list B) :=
  match l with
  | [] => Ok []
  | x :: l' =>
      match f x with
      | Raised e => Raised e
      | Ok y =>
          match collect f l' with
          | Raised e => Raised e
          | Ok ys => Ok (y :: ys)
          end
      end
  end.

Section RecursionLimit.

Variable listcomp : nat.

Fixpoint clean_in (budget : nat) (config_data : json) {struct config_data}
  : result json :=
  match budget with
  | 0 => Raised RecursionError
  | S budget' =>
      match config_data with
      | JObj entries =>
          match
            fold_left
              (fun cleaned kv =>
                 match cleaned with
                 | Raised e => Raised e
                 | Ok cleaned =>
                     if String.eqb (fst kv) TARGET then Ok cleaned
                     else
                       match clean_in budget' (snd kv) with
                       | Raised e => Raised e
                       | Ok value => Ok (dict_set (fst kv) value cleaned)
                       end
                 end)
              entries (Ok [])
          with
          | Raised e => Raised e
          | Ok cleaned => Ok (JObj cleaned)
          end
      | JArr items =>
          if Nat.ltb budget' listcomp then Raised RecursionError
          else
            match collect (clean_in (budget' - listcomp)) items with
            | Raised e => Raised e
            | Ok cleaned => Ok (JArr cleaned)
            end
      | other => Ok other
      end
  end.

Fixpoint frames (v : json) : nat :=
  match v with
  | JObj entries =>
      S (fold_right
           (fun kv m =>
              if String.eqb (fst kv) TARGET then m
              else Nat.max (frames (snd kv)) m)
           0 entries)
  | JArr items =>
      S (listcomp + fold_right (fun x m => Nat.max (frames x) m) 0 items)
  | _ => 1
  end.

End RecursionLimit.

(** [n + 1] lists, one inside the other. *)
Fixpoint nested (n : nat) : json :=
  match n with
  | 0 => JArr []
  | S n' => JArr [nested n']
  end.

(** ** Serialisation: [json.dumps] *)

Definition QUOTE : ascii := "034"%char.
Definition BACKSLASH : ascii := "092"%char.

Definition hex_digit (n : N) : ascii :=
  nth (N.to_nat n) (list_ascii_of_string "0123456789abcdef") "0"%char.

(** [ESCAPE_DCT] and the [\uXXXX] fallback of [py_encode_basestring_ascii]:
    only the printable ASCII characters other than the quote and the
    backslash are copied as they are. *)
Definition escape_char (c : ascii) : string :=
  let n := N_of_ascii c in
  if (n =? 92)%N then String BACKSLASH (String BACKSLASH "")
  else if (n =? 34)%N then String BACKSLASH (String QUOTE "")
  else if (n =? 8)%N then String BACKSLASH "b"
  else if (n =? 12)%N then String BACKSLASH "f"
  else if (n =? 10)%N then String BACKSLASH "n"
  else if (n =? 13)%N then String BACKSLASH "r"
  else if (n =? 9)%N then String BACKSLASH "t"
  else if (32 <=? n)%N && (n <=? 126)%N then String c ""
  else String BACKSLASH
         (String "u" (String "0" (String "0"
            (String (hex_digit (n / 16)) (String (hex_digit (n mod 16)) ""))))).

Fixpoint escape (s : string) : string :=
  match s with
  | EmptyString => ""
  | String c s' => escape_char c +:+ escape s'
  end.

Definition py_encode_basestring_ascii (s : string) : string :=
  String QUOTE (escape s +:+ String QUOTE "").

(** [int.__repr__] *)
Definition int_repr (n : Z) : string := NilZero.string_of_int (Z.to_int n).

(** [sorted(dct.items())] on entries whose values are already rendered: a
    stable insertion sort on the key, in code point order. *)
Fixpoint insert_item (kv : string * string) (l : list (string * string))
  : list (string * string) :=
  match l with
  | [] => [kv]
  | kv' :: l' =>
      if String.leb (fst kv) (fst kv') then kv :: l else kv' :: insert_item kv l'
  end.

Definition sorted_items (l : list (string * string)) : list (string * string) :=
  fold_right insert_item [] l.

Definition render_item (kv : string * string) : string :=
  py_encode_basestring_ascii (fst kv) +:+ ": " +:+ snd kv.

(** [needle in hay], which is also [hay LIKE '%needle%'] for a needle with
    no pattern character. *)
Fixpoint contains (needle hay : string) : bool :=
  String.prefix needle hay
  || match hay with
     | EmptyString => false
     | String _ hay' => contains needle hay'
     end.

(** Every string of the tree, and every key other than the needle itself, is
    written without the needle. *)
Fixpoint text_free (needle : string) (v : json) : bool :=
  match v with
  | JStr s => negb (contains needle (escape s))
  | JArr items => forallb (text_free needle) items
  | JObj entries =>
      forallb (fun kv => (String.eqb (fst kv) needle
                          || negb (contains needle (escape (fst kv))))
                         && text_free needle (snd kv)) entries
  | _ => true
  end.

Section Dumps.

(** [floatstr] of [json.encoder]: [float.__repr__], or [NaN], [Infinity],
    [-Infinity]. *)
Variable floatstr : spec_float -> string.

Fixpoint dumps (sort_keys : bool) (obj : json) : string :=
  match obj with
  | JNull => "null"
  | JBool true => "true"
  | JBool false => "false"
  | JInt n => int_repr n
  | JFloat f => floatstr f
  | JStr s => py_encode_basestring_ascii s
  | JArr items =>
      "[" +:+ String.concat ", " (map (dumps sort_keys) items) +:+ "]"
  | JObj entries =>
      let items := map (fun kv => (fst kv, dumps sort_keys (snd kv))) entries in
      let items := if sort_keys then sorted_items items else items in
      "{" +:+ String.concat ", " (map render_item items) +:+ "}"
  end.

End Dumps.

(** ** The table and the run of the script *)

(** A row of [sidebar_configurations]; [config_id] is the primary key. *)
Record config : Type := Config {
  config_id : string;
  config_name : string;
  config_data : json;
  updated_at : Z
}.

Inductive statement : Type :=
| SelectAll
| Update (cleaned_data : json) (id : string)
| CountLike
| SelectSample.

Inductive line : Type :=
| Connecting
| Fetching
| Found (n : nat)
| Updated (name id : string)
| NoChanges (name id : string)
| Success (updated_count : nat)
| Verifying
| VerificationPassed
| Warning (remaining_count : nat)
| Sample (sample_item : json)
| Error (e : exn).

(** [table] is what is committed, [txn] what the open transaction sees,
    [calls] counts the database calls made so far. The two lists stand for
    the rows they hold; their order is seen by no query (see [fetch]). *)
Record world : Type := World {
  table : list config;
  txn : list config;
  calls : nat;
  executed : list statement;
  console : list line
}.

Definition M (A : Type) : Type := world -> result A * world.

#[export] Instance M_ret : MRet M := fun A a w => (Ok a, w).

#[export] Instance M_bind : MBind M := fun A B k m w =>
  match m w with
  | (Ok a, w') => k a w'
  | (Raised e, w') => (Raised e, w')
  end.

Definition print (l : line) : M unit := fun w =>
  (Ok tt, World (table w) (txn w) (calls w) (executed w) (console w ++ [l])).

Definition get_txn : M (list config) := fun w => (Ok (txn w), w).

Definition set_txn (rows : list config) : M unit := fun w =>
  (Ok tt, World (table w) rows (calls w) (executed w) (console w)).

Definition record (s : statement) : M unit := fun w =>
  (Ok tt, World (table w) (txn w) (calls w) (executed w ++ [s]) (console w)).

Definition publish : M unit := fun w =>
  (Ok tt, World (txn w) (txn w) (calls w) (executed w) (console w)).

(** [UPDATE ... SET configuration_data = %s, updated_at = now() WHERE id = %s];
    the store reads the text it is handed back as the tree it was written
    from. Where the new version of a row stands in the list is of no
    account: the rows are read through [fetch] alone. *)
Definition update_where (now : Z) (cleaned_data : json) (id : string)
  (rows : list config) : list config :=
  map (fun c => if String.eqb (config_id c) id
                then Config (config_id c) (config_name c) cleaned_data now
                else c) rows.

(** Python truthiness, for [if sample and sample['sample_item']]. *)
Definition truthy (v : json) : bool :=
  match v with
  | JNull => false
  | JBool b => b
  | JInt n => negb (n =? 0)%Z
  | JFloat (S754_zero _) => false
  | JFloat _ => true
  | JStr s => negb (String.eqb s "")
  | JArr items => negb (Nat.eqb (length items) 0)
  | JObj entries => negb (Nat.eqb (length entries) 0)
  end.

Definition SAMPLE_PATH : list step :=
  [Key "sections"; Idx 0; Key "items"; Idx 0].

(** The order in which the store hands out rows is its own: an answer is
    the rows in some arrangement, built by inserting them one by one at
    positions the store chooses ([arrange_complete]: every arrangement is
    one of these). *)
Fixpoint insert_at {A : Type} (n : nat) (x : A) (l : list A) {struct l}
  : list A :=
  match l with
  | [] => [x]
  | y :: l' =>
      match n with
      | 0 => x :: l
      | S n' => y :: insert_at n' x l'
      end
  end.

Fixpoint arrange {A : Type} (pos : nat -> nat) (l : list A) : list A :=
  match l with
  | [] => []
  | x :: l' => insert_at (pos (length l')) x (arrange pos l')
  end.

Section Script.

Variable floatstr : spec_float -> string.
(** Which database calls raise, and the time [now()] of the transaction. *)
Variable raises : nat -> bool.
Variable now : Z.
(** The frames a list comprehension takes, and the frames left for a call
    made from the loop of [main]. *)
Variable listcomp : nat.
Variable limit : nat.
(** [order k]: the positions the store chooses for the rows of the answer
    it gives once [k] calls have been made. *)
Variable order : nat -> nat -> nat.

(** [psycopg2.connect], [cursor.execute] and [conn.commit] go to the
    server: each counts as one call and raises when the server says so. *)
Definition db_call : M unit := fun w =>
  let w' := World (table w) (txn w) (S (calls w)) (executed w) (console w) in
  if raises (calls w) then (Raised (DbError (calls w)), w') else (Ok tt, w').

Definition connect : M unit := db_call.

Definition execute (s : statement) : M unit :=
  db_call;;
  record s;;
  match s with
  | Update cleaned_data id =>
      rows ← get_txn; set_txn (update_where now cleaned_data id rows)
  | _ => mret tt
  end.

Definition commit : M unit :=
  db_call;;
  publish.

(** [cursor.fetchall()], and [cursor.fetchone()] through [head]: the rows
    the transaction sees, in the order the store gives them. *)
Definition fetch : M (list config) := fun w =>
  (Ok (arrange (order (calls w)) (txn w)), w).

(** [clean_configuration_data(config_data)], called from the loop. *)
Definition call_clean (config_data : json) : M json := fun w =>
  match clean_in listcomp limit config_data with
  | Ok cleaned_data => (Ok cleaned_data, w)
  | Raised e => (Raised e, w)
  end.

(** [configuration_data::text LIKE '%requiresProject%']; the text of a
    stored document is the text [json.dumps] writes for it. *)
Definition still_mentions (c : config) : bool :=
  contains TARGET (dumps floatstr false (config_data c)).

(** [SELECT count( * ) ... WHERE configuration_data::text LIKE ...] *)
Definition remaining (rows : list config) : nat :=
  length (filter (fun c => still_mentions c = true) rows).

(** The body of the [for config in configurations] loop. The two texts are
    written for any document that could be decoded: [json.dumps] goes no
    deeper than [json.loads] went. *)
Definition process (config : config) (updated_count : nat) : M nat :=
  cleaned_data ← call_clean (config_data config);
  let original_str := dumps floatstr true (config_data config) in
  let cleaned_str := dumps floatstr true cleaned_data in
  if negb (String.eqb original_str cleaned_str) then
    execute (Update cleaned_data (config_id config));;
    print (Updated (config_name config) (config_id config));;
    mret (S updated_count)
  else
    print (NoChanges (config_name config) (config_id config));;
    mret updated_count.

Fixpoint for_each (configurations : list config) (updated_count : nat)
  : M nat :=
  match configurations with
  | [] => mret updated_count
  | config :: rest =>
      updated_count' ← process config updated_count;
      for_each rest updated_count'
  end.

(** The [try] block. *)
Definition body : M nat :=
  print Connecting;;
  connect;;
  print Fetching;;
  execute SelectAll;;
  configurations ← fetch;
  print (Found (length configurations));;
  updated_count ← for_each configurations 0;
  commit;;
  print (Success updated_count);;
  print Verifying;;
  execute CountLike;;
  rows ← get_txn;
  let remaining_count := remaining rows in
  (if Nat.eqb remaining_count 0 then print VerificationPassed
   else print (Warning remaining_count));;
  execute SelectSample;;
  rows ← fetch;
  match head rows with
  | Some sample =>
      match get_path SAMPLE_PATH (config_data sample) with
      | Some sample_item =>
          if truthy sample_item then print (Sample sample_item) else mret tt
      | None => mret tt
      end
  | None => mret tt
  end;;
  mret updated_count.

(** The [finally] block: closing the connection drops what was not
    committed. *)
Definition close (w : world) : world :=
  World (table w) (table w) (calls w) (executed w) (console w).

(** The exit status of the process and the world it leaves: [sys.exit(1)]
    in the handler, 0 when the script runs to its end. *)
Definition main (w : world) : Z * world :=
  match body w with
  | (Ok _, w') => (0%Z, close w')
  | (Raised e, w') =>
      match print (Error e) w' with
      | (_, w'') => (1%Z, close w'')
      end
  end.

End Script.

Definition start (rows : list config) : world :=
  World rows rows 0 [] [].

(** ** Auxiliary notions for the statements *)

Abbreviation clean := clean_configuration_data.

Definition strip (entries : list (string * json)) : list (string * json) :=
  (fun kv => (fst kv, clean (snd kv))) <$> filter (fun kv => fst kv <> TARGET) entries.

(** What the loop keeps true of [cleaned]. *)
Definition cleaned_ok (d : list (string * json)) : Prop :=
  NoDup (keys d)
  /\ Forall (fun kv => fst kv <> TARGET /\ dict_ok (snd kv) = true
                       /\ mentions_target (snd kv) = false) d.

Definition scenario_A : json :=
  JObj [("sections",
         JArr [JObj [("items",
                      JArr [JObj [("id", JInt 1);
                                  ("requiresProject", JBool true);
                                  ("label", JStr "X")]])]])].

(** [c in s] *)
Definition occurs (c : ascii) (s : string) : bool :=
  existsb (Ascii.eqb c) (list_ascii_of_string s).

(** No character of [s] is a character of the needle. *)
Fixpoint foreign (needle s : string) : bool :=
  match s with
  | EmptyString => true
  | String c s' => negb (occurs c needle) && foreign needle s'
  end.

(** A table of two cleaned documents that the verification query still
    counts. *)
Definition leftovers : list config :=
  [Config "1" "main" (JObj [("requiresProjectId", JInt 1)]) 0;
   Config "2" "side" (JObj [("label", JStr "requiresProject")]) 0].

(** ** The outcome of a run, for the statements *)

(** The first call that raises among [start], ..., [start + len - 1]. *)
Fixpoint first_raise_from (raises : nat -> bool) (start len : nat) : option nat :=
  match len with
  | 0 => None
  | S len' =>
      if raises start then Some start else first_raise_from raises (S start) len'
  end.

Definition first_raise (raises : nat -> bool) (limit : nat) : option nat :=
  first_raise_from raises 0 limit.

Definition sample_lines (rows : list config) : list line :=
  match head rows with
  | Some sample =>
      match get_path SAMPLE_PATH (config_data sample) with
      | Some sample_item =>
          if truthy sample_item then [Sample sample_item] else []
      | None => []
      end
  | None => []
  end.

Definition banner (rows : list config) : list line :=
  [Connecting; Fetching; Found (length rows)].

Definition is_update (s : statement) : bool :=
  match s with
  | Update _ _ => true
  | _ => false
  end.


(** The rows the loop visits before one does not fit the recursion limit. *)
Fixpoint reach (fits : config -> bool) (rows : list config) : list config :=
  match rows with
  | [] => []
  | c :: rest => if fits c then c :: reach fits rest else []
  end.

Section Outcome.

Variable floatstr : spec_float -> string.
Variable now : Z.

(** The test [original_str != cleaned_str] of a row. *)
Definition differs (c : config) : bool :=
  negb (String.eqb (dumps floatstr true (config_data c))
                   (dumps floatstr true (clean (config_data c)))).


(** What a loop that runs to its end over [rows] leaves behind. *)
Definition writes (rows : list config) : nat :=
  length (filter (fun c => differs c = true) rows).

Definition applied (rows seen : list config) : list config :=
  fold_left (fun seen c =>
               if differs c
               then update_where now (clean (config_data c)) (config_id c) seen
               else seen) rows seen.

Definition stmts (rows : list config) : list statement :=
  map (fun c => Update (clean (config_data c)) (config_id c))
      (filter (fun c => differs c = true) rows).

Definition lines (rows : list config) : list line :=
  map (fun c => if differs c then Updated (config_name c) (config_id c)
                else NoChanges (config_name c) (config_id c)) rows.

(** The rows visited before the [j]-th write. *)
Fixpoint before_write (j : nat) (rows : list config) : list config :=
  match rows with
  | [] => []
  | c :: rest =>
      if differs c then
        match j with
        | 0 => []
        | S j' => c :: before_write j' rest
        end
      else c :: before_write j rest
  end.

Definition verdict (rows : list config) : line :=
  if Nat.eqb (remaining floatstr rows) 0 then VerificationPassed
  else Warning (remaining floatstr rows).

End Outcome.

(** The document of a row needs no more frames than are left. *)
Definition fits (listcomp limit : nat) (c : config) : bool :=
  Nat.leb (frames listcomp (config_data c)) limit.

(** The exception that ends a run over the rows [fetched], if any: a
    database call that raises before or in the loop, a row that does not
    fit, or a database call that raises after the loop. *)
Definition failure (floatstr : spec_float -> string) (raises : nat -> bool)
  (listcomp limit : nat) (fetched : list config) : option exn :=
  match first_raise raises
          (2 + writes floatstr (reach (fits listcomp limit) fetched)) with
  | Some n => Some (DbError n)
  | None =>
      if forallb (fits listcomp limit) fetched then
        match first_raise raises (5 + writes floatstr fetched) with
        | Some n => Some (DbError n)
        | None => None
        end
      else Some RecursionError
  end.

(** The run reaches the commit and the commit goes through. *)
Definition commits (floatstr : spec_float -> string) (raises : nat -> bool)
  (listcomp limit : nat) (fetched : list config) : bool :=
  forallb (fits listcomp limit) fetched
  && match first_raise raises (3 + writes floatstr fetched) with
     | Some _ => false
     | None => true
     end.

(** ** Notions for the further properties *)

(** The length of [", ".join(parts)]. *)
Definition joined_length (parts : list string) : nat :=
  sum_list (String.length <$> parts) + 2 * pred (length parts).

Section EntryLength.

Variable floatstr : spec_float -> string.
Variable sort_keys : bool.

(** The length of the text of an entry of a dictionary. *)
Definition entry_length (kv : string * json) : nat :=
  String.length (render_item (fst kv, dumps floatstr sort_keys (snd kv))).

End EntryLength.


(** A table of two rows, the first of which holds the flag. *)
Definition two_rows : list config :=
  [Config "1" "main" scenario_A 0;
   Config "2" "side" (JObj [("label", JStr "Y")]) 0].

(** Every answer in the order of the list, and every answer backwards. *)
Definition as_stored : nat -> nat -> nat := fun _ _ => 0.
Definition backwards : nat -> nat -> nat := fun _ i => i.

(** * Properties *)

(** ** The transformer *)

Lemma distinct_NoDup (ks : list string) : distinct ks = true <-> NoDup ks.
Proof.
  induction ks as [|k ks IH]; simpl.
  - split; [constructor | done].
  - rewrite andb_true_iff, negb_true_iff, NoDup_cons, IH.
    assert (existsb (String.eqb k) ks = false <-> k ∉ ks) as ->; [|done].
    rewrite <- not_true_iff_false, existsb_exists.
    split.
    + intros H Hin. apply H. exists k. split; [by apply list_elem_of_In|].
      apply String.eqb_refl.
    + intros H (x & Hx & Heq). apply String.eqb_eq in Heq as <-.
      by apply H, list_elem_of_In.
Qed.

Lemma clean_obj (entries : list (string * json)) :
  clean (JObj entries) = JObj (clean_entries entries []).
Proof. reflexivity. Qed.

Lemma clean_entries_nil cleaned : clean_entries [] cleaned = cleaned.
Proof. reflexivity. Qed.

Lemma clean_entries_skip v rest cleaned :
  clean_entries ((TARGET, v) :: rest) cleaned = clean_entries rest cleaned.
Proof. reflexivity. Qed.

Lemma clean_entries_keep k v rest cleaned :
  k <> TARGET ->
  clean_entries ((k, v) :: rest) cleaned
  = clean_entries rest (dict_set k (clean v) cleaned).
Proof.
  intros Hk. unfold clean_entries. simpl.
  apply String.eqb_neq in Hk. by rewrite Hk.
Qed.

Lemma dict_set_fresh k v d : k ∉ keys d -> dict_set k v d = d ++ [(k, v)].
Proof.
  induction d as [|[k' v'] d IH]; simpl; [done|].
  intros Hk. apply not_elem_of_cons in Hk as [Hne Hk].
  destruct (String.eqb_spec k' k) as [->|_]; [done|].
  by rewrite IH.
Qed.

Lemma key_set_dict_set k v d : key_set (dict_set k v d) = {[k]} ∪ key_set d.
Proof.
  unfold key_set, keys.
  induction d as [|[k' v'] d IH]; simpl.
  - set_solver.
  - destruct (String.eqb_spec k' k) as [->|_]; simpl.
    + set_solver.
    + rewrite IH. set_solver.
Qed.

Lemma keys_dict_set_NoDup k v d : NoDup (keys d) -> NoDup (keys (dict_set k v d)).
Proof.
  unfold keys. induction d as [|[k' v'] d IH]; simpl.
  - intros _. apply NoDup_singleton.
  - rewrite NoDup_cons. intros [Hk' Hd].
    destruct (String.eqb_spec k' k) as [->|Hne]; simpl.
    + by apply NoDup_cons.
    + apply NoDup_cons. split; [|by apply IH].
      intros Hin. apply Hk'.
      assert (k' ∈ key_set (dict_set k v d)) as Hs
        by (unfold key_set, keys; by apply elem_of_list_to_set).
      rewrite key_set_dict_set in Hs.
      apply elem_of_union in Hs as [Hs|Hs].
      * apply elem_of_singleton in Hs. congruence.
      * by apply elem_of_list_to_set in Hs.
Qed.

Lemma key_set_clean_entries entries cleaned :
  key_set (clean_entries entries cleaned)
  = key_set cleaned ∪ (key_set entries ∖ {[TARGET]}).
Proof.
  revert cleaned. induction entries as [|[k v] entries IH]; intros cleaned.
  - rewrite clean_entries_nil. unfold key_set at 3. simpl. set_solver.
  - destruct (decide (k = TARGET)) as [->|Hk].
    + rewrite clean_entries_skip, IH. unfold key_set, keys. simpl. set_solver.
    + rewrite clean_entries_keep, IH, key_set_dict_set by done.
      unfold key_set, keys. simpl. set_solver.
Qed.

Lemma clean_entries_distinct entries cleaned :
  NoDup (keys cleaned ++ keys entries) ->
  clean_entries entries cleaned = cleaned ++ strip entries.
Proof.
  revert cleaned. induction entries as [|[k v] entries IH]; intros cleaned Hnd.
  - by rewrite clean_entries_nil, app_nil_r.
  - simpl in Hnd. rewrite <- Permutation_middle in Hnd.
    apply NoDup_cons in Hnd as [Hfresh Hnd].
    unfold strip. destruct (decide (k = TARGET)) as [->|Hk].
    + rewrite clean_entries_skip, filter_cons_False by (simpl; tauto).
      by apply IH.
    + rewrite clean_entries_keep, filter_cons_True by done.
      rewrite dict_set_fresh by set_solver.
      rewrite IH.
      * by rewrite <- app_assoc.
      * unfold keys in *. rewrite fmap_app. simpl.
        rewrite <- app_assoc. simpl. rewrite <- Permutation_middle.
        by apply NoDup_cons.
Qed.

Lemma clean_obj_distinct entries :
  distinct (keys entries) = true -> clean (JObj entries) = JObj (strip entries).
Proof.
  intros Hd. rewrite clean_obj, clean_entries_distinct; [done|].
  by apply distinct_NoDup.
Qed.

Lemma dict_get_strip k entries :
  dict_get k (strip entries)
  = if String.eqb k TARGET then None else clean <$> dict_get k entries.
Proof.
  unfold strip. induction entries as [|[k' v'] entries IH]; simpl.
  - by destruct (String.eqb k TARGET).
  - rewrite filter_cons. destruct (decide ((k', v').1 ≠ TARGET)) as [Hne|Heq]; simpl in *.
    + destruct (String.eqb_spec k' k) as [->|Hkk].
      * apply String.eqb_neq in Hne. by rewrite Hne.
      * apply IH.
    + apply dec_stable in Heq. subst k'.
      destruct (String.eqb_spec TARGET k) as [<-|Hkk].
      * by rewrite String.eqb_refl in IH |- *.
      * apply IH.
Qed.

Lemma type_of_clean v : type_of (clean v) = type_of v.
Proof. by destruct v. Qed.

Lemma clean_scalar v : is_scalar v = true -> clean v = v.
Proof. by destruct v. Qed.

Lemma dict_ok_get k entries v :
  dict_ok (JObj entries) = true -> dict_get k entries = Some v -> dict_ok v = true.
Proof.
  simpl. rewrite andb_true_iff. intros [_ Hall].
  induction entries as [|[k' v'] entries IH]; simpl in *; [done|].
  apply andb_true_iff in Hall as [Hv Hall].
  destruct (String.eqb k' k); [by intros [= <-]|by apply IH].
Qed.

Lemma dict_ok_lookup i items v :
  dict_ok (JArr items) = true -> items !! i = Some v -> dict_ok v = true.
Proof.
  simpl. intros Hall Hi.
  apply list_elem_of_lookup_2, list_elem_of_In in Hi.
  by apply (proj1 (forallb_forall _ _) Hall).
Qed.

Lemma get_path_clean p : forall t,
  dict_ok t = true ->
  get_path p (clean t)
  = if existsb (is_key TARGET) p then None else clean <$> get_path p t.
Proof.
  induction p as [|[k|i] p IH]; intros t Hok; [done| |].
  - destruct t; try (by destruct (existsb _ (_ :: p))).
    pose proof Hok as Hd. simpl in Hd. apply andb_true_iff in Hd as [Hd _].
    rewrite clean_obj_distinct by done. simpl.
    rewrite dict_get_strip.
    destruct (String.eqb k TARGET); [done|]. simpl.
    destruct (dict_get k entries) as [v|] eqn:Hget; simpl;
      [|by destruct (existsb _ p)].
    apply IH. by eapply dict_ok_get.
  - destruct t; try (by destruct (existsb _ (_ :: p))).
    simpl. rewrite list_lookup_fmap.
    destruct (items !! i) as [v|] eqn:Hi; simpl;
      [|by destruct (existsb _ p)].
    apply IH. by eapply dict_ok_lookup.
Qed.

Lemma Forall_dict_set (P : string * json -> Prop) k v d :
  Forall P d -> P (k, v) -> Forall P (dict_set k v d).
Proof.
  intros Hd Hkv. induction Hd as [|[k' v'] d Hx Hd IH]; simpl.
  - by constructor.
  - destruct (String.eqb_spec k' k) as [->|_]; by constructor.
Qed.

Lemma cleaned_ok_entries entries : forall cleaned,
  Forall (fun kv => dict_ok (clean (snd kv)) = true
                    /\ mentions_target (clean (snd kv)) = false) entries ->
  cleaned_ok cleaned -> cleaned_ok (clean_entries entries cleaned).
Proof.
  induction entries as [|[k v] entries IH]; intros cleaned Hall Hc; [done|].
  apply Forall_cons in Hall as [[Hv1 Hv2] Hall]. simpl in Hv1, Hv2.
  destruct (decide (k = TARGET)) as [->|Hk].
  - rewrite clean_entries_skip. by apply IH.
  - rewrite clean_entries_keep by done. apply IH; [done|].
    destruct Hc as [Hnd Hf]. split.
    + by apply keys_dict_set_NoDup.
    + by apply Forall_dict_set.
Qed.

Lemma cleaned_ok_obj d :
  cleaned_ok d -> dict_ok (JObj d) = true /\ mentions_target (JObj d) = false.
Proof.
  intros [Hnd Hf]. simpl. apply distinct_NoDup in Hnd. unfold keys in Hnd.
  rewrite Hnd. simpl. clear Hnd.
  induction Hf as [|[k v] d (Hk & Hv1 & Hv2) Hf [IH1 IH2]]; [done|].
  simpl in *. apply String.eqb_neq in Hk. by rewrite Hk, Hv1, Hv2, IH1, IH2.
Qed.

Lemma clean_ok t :
  dict_ok (clean t) = true /\ mentions_target (clean t) = false.
Proof.
  induction t as [| | | | |items IH|entries IH] using json_ind; try done.
  - simpl. induction IH as [|x items [Hx1 Hx2] _ [IH1 IH2]]; [done|].
    simpl. by rewrite Hx1, Hx2, IH1, IH2.
  - rewrite clean_obj. apply cleaned_ok_obj, cleaned_ok_entries; [done|].
    split; [constructor|constructor].
Qed.

Lemma strip_fixed entries :
  Forall (fun kv => fst kv <> TARGET /\ clean (snd kv) = snd kv) entries ->
  strip entries = entries.
Proof.
  unfold strip. induction 1 as [|[k v] entries [Hk Hv] _ IH]; [done|].
  rewrite filter_cons_True by done. rewrite fmap_cons, IH.
  simpl in Hv |- *. by rewrite Hv.
Qed.

Lemma clean_fixed t :
  dict_ok t = true -> mentions_target t = false -> clean t = t.
Proof.
  induction t as [| | | | |items IH|entries IH] using json_ind; try done.
  - simpl. intros Hok Hm. f_equal.
    induction IH as [|x items Hx _ IH]; [done|]. simpl in *.
    apply andb_true_iff in Hok as [? ?]. apply orb_false_iff in Hm as [? ?].
    by rewrite Hx, IH.
  - intros Hok Hm. simpl in Hok. apply andb_true_iff in Hok as [Hd Hok].
    rewrite clean_obj_distinct by done. f_equal. apply strip_fixed.
    clear Hd. simpl in Hm.
    induction IH as [|[k v] entries Hx _ IH]; [done|]. simpl in *.
    apply andb_true_iff in Hok as [? ?]. apply orb_false_iff in Hm as [Hm ?].
    apply orb_false_iff in Hm as [Hk ?]. apply String.eqb_neq in Hk.
    constructor; [|by apply IH]. split; [done|by apply Hx].
Qed.

Lemma dict_ok_get_path p : forall t v,
  dict_ok t = true -> get_path p t = Some v -> dict_ok v = true.
Proof.
  induction p as [|[k|i] p IH]; intros t v Hok; simpl.
  - by intros [= <-].
  - destruct t; try done.
    destruct (dict_get k entries) as [x|] eqn:Hget; [|done]. simpl.
    apply IH. by eapply dict_ok_get.
  - destruct t; try done.
    destruct (items !! i) as [x|] eqn:Hi; [|done]. simpl.
    apply IH. by eapply dict_ok_lookup.
Qed.

Lemma clean_is_obj v out :
  clean v = JObj out -> exists entries, v = JObj entries.
Proof. destruct v; try done. eauto. Qed.

(** C1: in the result of the strip, the object found along any path has the
    keys of the input object found along the same path, less
    [requiresProject]; and every input object reached without passing through
    a [requiresProject] key has such an output object. Paths go through
    dictionaries and arrays alike. *)
Theorem key_sets_at_every_depth (t : json) (p : list step) :
  dict_ok t = true ->
  (forall out, get_path p (clean t) = Some (JObj out) ->
     exists entries, get_path p t = Some (JObj entries)
                     /\ key_set out = key_set entries ∖ {[TARGET]})
  /\ (forall entries, existsb (is_key TARGET) p = false ->
        get_path p t = Some (JObj entries) ->
        exists out, get_path p (clean t) = Some (JObj out)
                    /\ key_set out = key_set entries ∖ {[TARGET]}).
Proof.
  intros Hok. rewrite get_path_clean by done. split.
  - intros out. destruct (existsb _ p); [done|].
    destruct (get_path p t) as [v|]; [|done]. simpl. intros [= Hv].
    destruct (clean_is_obj _ _ Hv) as [entries ->]. exists entries.
    split; [done|]. rewrite clean_obj in Hv. injection Hv as <-.
    rewrite key_set_clean_entries. unfold key_set at 1. simpl. set_solver.
  - intros entries -> ->. exists (clean_entries entries []).
    split; [reflexivity|].
    rewrite key_set_clean_entries. unfold key_set at 1. simpl. set_solver.
Qed.

Lemma key_sets_at_every_depth_witness :
  dict_ok scenario_A = true
  /\ exists entries,
       get_path [Key "sections"; Idx 0; Key "items"; Idx 0] scenario_A
       = Some (JObj entries)
       /\ key_set [("id", JInt 1); ("label", JStr "X")]
          = key_set entries ∖ {[TARGET]}.
Proof.
  split; [reflexivity|].
  apply (proj1 (key_sets_at_every_depth scenario_A
                  [Key "sections"; Idx 0; Key "items"; Idx 0] eq_refl)).
  reflexivity.
Defined.

(** C2: along every path the strip reaches exactly the image of the input
    node, unless the path goes through a [requiresProject] key; a node keeps
    its type, a scalar is returned as it is, an array keeps its length and
    the order of its elements, and a dictionary keeps its other entries in
    their order. *)
Theorem structure_preserved (t : json) (p : list step) :
  dict_ok t = true ->
  get_path p (clean t)
  = (if existsb (is_key TARGET) p then None else clean <$> get_path p t)
  /\ forall v, get_path p t = Some v ->
       type_of (clean v) = type_of v
       /\ (is_scalar v = true -> clean v = v)
       /\ (forall items, v = JArr items ->
             exists items', clean v = JArr items'
                            /\ length items' = length items
                            /\ forall i, items' !! i = clean <$> items !! i)
       /\ (forall entries, v = JObj entries ->
             clean v = JObj ((fun kv => (fst kv, clean (snd kv)))
                               <$> filter (fun kv => fst kv <> TARGET) entries)).
Proof.
  intros Hok. split; [by apply get_path_clean|].
  intros v Hv. split; [apply type_of_clean|]. split; [apply clean_scalar|].
  split.
  - intros items ->. exists (clean <$> items). split; [done|].
    split; [by rewrite length_fmap|]. intros i. apply list_lookup_fmap.
  - intros entries ->. apply clean_obj_distinct.
    apply dict_ok_get_path in Hv; [|done]. simpl in Hv.
    by apply andb_true_iff in Hv as [? _].
Qed.

Lemma structure_preserved_witness :
  dict_ok scenario_A = true
  /\ get_path [Key "sections"; Idx 0] (clean scenario_A)
     = clean <$> get_path [Key "sections"; Idx 0] scenario_A.
Proof.
  split; [reflexivity|].
  exact (proj1 (structure_preserved scenario_A [Key "sections"; Idx 0] eq_refl)).
Defined.

(** C3: stripping twice is stripping once. *)
Theorem clean_idempotent (t : json) :
  clean_configuration_data (clean_configuration_data t)
  = clean_configuration_data t.
Proof. destruct (clean_ok t) as [Hok Hm]. by apply clean_fixed. Qed.

(** C7: the value stored under [requiresProject] goes with its key, whatever
    it holds; on [{requiresProject: {nested: value}}] the result is the empty
    dictionary. *)
Theorem scenario_C :
  clean_configuration_data
    (JObj [("requiresProject", JObj [("nested", JStr "value")])])
  = JObj []
  /\ forall v : json,
       clean_configuration_data (JObj [("requiresProject", v)]) = JObj [].
Proof. split; reflexivity. Qed.

(** C10: a key is dropped only when it is [requiresProject] itself; under any
    other key, longer or differing in case, the cleaned value is found. *)
Theorem exact_key_match (entries : list (string * json)) (k : string) :
  distinct (keys entries) = true ->
  (exists out, clean (JObj entries) = JObj out
               /\ dict_get k out
                  = if String.eqb k TARGET then None
                    else clean <$> dict_get k entries)
  /\ forall v w x,
       clean (JObj [("requiresProjectId", v); ("RequiresProject", w);
                    ("requiresProject", x)])
       = JObj [("requiresProjectId", clean v); ("RequiresProject", clean w)].
Proof.
  intros Hd. split; [|reflexivity].
  exists (strip entries). split; [by apply clean_obj_distinct|].
  apply dict_get_strip.
Qed.

Lemma exact_key_match_witness :
  distinct (keys [("requiresProjectId", JInt 7); ("requiresProject", JNull)]) = true
  /\ exists out,
       clean (JObj [("requiresProjectId", JInt 7); ("requiresProject", JNull)])
       = JObj out
       /\ dict_get "requiresProjectId" out = Some (JInt 7).
Proof.
  split; [reflexivity|].
  exact (proj1 (exact_key_match
                  [("requiresProjectId", JInt 7); ("requiresProject", JNull)]
                  "requiresProjectId" eq_refl)).
Defined.

(** ** Serialisation and the verification query *)

Lemma append_nil (y : string) : "" +:+ y = y.
Proof. reflexivity. Qed.

Lemma append_cons (c : ascii) (x y : string) :
  String c x +:+ y = String c (x +:+ y).
Proof. reflexivity. Qed.

Lemma append_assoc (x y z : string) : (x +:+ y) +:+ z = x +:+ (y +:+ z).
Proof.
  induction x as [|c x IH]; [done|]. by rewrite !append_cons, IH.
Qed.

Lemma prefix_app_sep (n : string) : forall x c y,
  String.prefix n (x +:+ String c y) = true ->
  String.prefix n x = true \/ occurs c n = true.
Proof.
  induction n as [|a n IH]; intros x c y; [intros _; left; by destruct x|].
  destruct x as [|b x]; rewrite ?append_nil, ?append_cons; simpl.
  - destruct (ascii_dec a c) as [->|]; [|done]. intros _. right.
    unfold occurs. simpl. by rewrite Ascii.eqb_refl.
  - destruct (ascii_dec a b) as [->|]; [|done]. intros H.
    destruct (IH _ _ _ H) as [Hp|Hc]; [by left|right].
    unfold occurs in *. simpl. by rewrite Hc, orb_true_r.
Qed.

Section Needle.

Variable needle : string.
Hypothesis needle_nonempty : needle <> "".

Lemma contains_nil : contains needle "" = false.
Proof. simpl. destruct needle; [done|reflexivity]. Qed.

Lemma contains_cons_sep c y :
  occurs c needle = false -> contains needle y = false ->
  contains needle (String c y) = false.
Proof.
  intros Hc Hy. simpl. rewrite Hy, orb_false_r.
  destruct needle as [|a n]; [done|]. simpl.
  destruct (ascii_dec a c) as [->|]; [|done].
  unfold occurs in Hc. simpl in Hc. by rewrite Ascii.eqb_refl in Hc.
Qed.

Lemma contains_app_sep x c y :
  occurs c needle = false ->
  contains needle x = false -> contains needle y = false ->
  contains needle (x +:+ String c y) = false.
Proof.
  intros Hc Hx Hy. induction x as [|b x IH].
  - rewrite append_nil. by apply contains_cons_sep.
  - cbn [contains] in Hx. apply orb_false_iff in Hx as [Hp Hx].
    rewrite append_cons. cbn [contains]. apply orb_false_iff. split; [|by apply IH].
    apply not_true_iff_false. intros H.
    apply (prefix_app_sep needle (String b x) c y) in H as [H|H]; congruence.
Qed.

Lemma contains_foreign s : foreign needle s = true -> contains needle s = false.
Proof.
  induction s as [|c s IH]; simpl; [intros _; apply contains_nil|].
  rewrite andb_true_iff, negb_true_iff. intros [Hc Hs].
  apply contains_cons_sep; auto.
Qed.

Lemma contains_concat sep1 sep2 parts :
  occurs sep1 needle = false -> occurs sep2 needle = false ->
  Forall (fun s => contains needle s = false) parts ->
  contains needle (String.concat (String sep1 (String sep2 "")) parts) = false.
Proof.
  intros H1 H2. induction 1 as [|x parts Hx Hparts IH]; [apply contains_nil|].
  destruct parts as [|y parts]; [done|].
  change (String.concat ?s (x :: y :: parts))
    with (x +:+ s +:+ String.concat s (y :: parts)).
  rewrite !append_cons, append_nil.
  apply contains_app_sep; [done..|]. by apply contains_cons_sep.
Qed.

Lemma contains_wrap l r s :
  occurs l needle = false -> occurs r needle = false ->
  contains needle s = false ->
  contains needle (String l (s +:+ String r "")) = false.
Proof.
  intros Hl Hr Hs. apply contains_cons_sep; [done|].
  apply contains_app_sep; [done..|apply contains_nil].
Qed.

End Needle.

Lemma foreign_uint (d : Decimal.uint) : foreign TARGET (NilEmpty.string_of_uint d) = true.
Proof. induction d; simpl; [done|by rewrite IHd ..]. Qed.

Lemma foreign_uint0 (d : Decimal.uint) :
  foreign TARGET (NilZero.string_of_uint d) = true.
Proof.
  unfold NilZero.string_of_uint. destruct d; [done|apply (foreign_uint (_ d))..].
Qed.

Lemma foreign_int_repr (n : Z) : foreign TARGET (int_repr n) = true.
Proof.
  unfold int_repr, NilZero.string_of_int.
  destruct (Z.to_int n) as [d|d]; [apply foreign_uint0|].
  cbn [foreign]. by rewrite foreign_uint0.
Qed.

Lemma Forall_insert_item (P : string * string -> Prop) kv l :
  P kv -> Forall P l -> Forall P (insert_item kv l).
Proof.
  intros Hkv. induction 1 as [|kv' l Hkv' Hl IH]; simpl.
  - by constructor.
  - destruct (String.leb _ _); repeat constructor; done.
Qed.

Lemma Forall_sorted_items (P : string * string -> Prop) l :
  Forall P l -> Forall P (sorted_items l).
Proof.
  induction 1 as [|kv l Hkv Hl IH]; simpl; [constructor|].
  by apply Forall_insert_item.
Qed.

Lemma free_encode (s : string) :
  contains TARGET (escape s) = false ->
  contains TARGET (py_encode_basestring_ascii s) = false.
Proof. intros Hs. by apply contains_wrap. Qed.

Lemma free_render_item (kv : string * string) :
  contains TARGET (escape (fst kv)) = false ->
  contains TARGET (snd kv) = false ->
  contains TARGET (render_item kv) = false.
Proof.
  intros Hk Hv. unfold render_item, py_encode_basestring_ascii.
  rewrite !append_cons, append_assoc, !append_cons, !append_nil.
  apply contains_cons_sep; [done..|].
  apply contains_app_sep; [done..|].
  by repeat (apply contains_cons_sep; [done..|]).
Qed.

Section DumpsFree.

Variable floatstr : spec_float -> string.
Hypothesis floatstr_free : forall f, contains TARGET (floatstr f) = false.

Lemma dumps_free (sort_keys : bool) (v : json) :
  mentions_target v = false ->
  text_free TARGET v = true ->
  contains TARGET (dumps floatstr sort_keys v) = false.
Proof.
  induction v as [|[|]| | | |items IH|entries IH] using json_ind;
    try done.
  - intros _ _. apply contains_foreign; [done|apply foreign_int_repr].
  - intros _ _. apply floatstr_free.
  - intros _ Hs. apply free_encode. by apply negb_true_iff.
  - intros Hm Hall. cbn [dumps]. rewrite append_cons, append_nil.
    apply contains_wrap; [done..|]. apply contains_concat; [done..|].
    cbn [text_free mentions_target] in Hm, Hall.
    induction IH as [|x items Hx _ IH']; [constructor|].
    simpl in Hm, Hall. apply andb_true_iff in Hall as [H1 H2].
    apply orb_false_iff in Hm as [Hm1 Hm2].
    constructor; auto.
  - intros Hm Hall. cbn [dumps]. rewrite append_cons, append_nil.
    apply contains_wrap; [done..|]. apply contains_concat; [done..|].
    apply Forall_fmap.
    assert (Forall (fun kv => contains TARGET (escape (fst kv)) = false
                              /\ contains TARGET (snd kv) = false)
              (map (fun kv => (fst kv, dumps floatstr sort_keys (snd kv))) entries))
      as Hitems.
    { cbn [text_free mentions_target] in Hm, Hall.
      induction IH as [|[k x] entries Hx _ IH']; [constructor|].
      simpl in Hm, Hall. apply andb_true_iff in Hall as [H1 H2].
      apply orb_false_iff in Hm as [Hm1 Hm2].
      apply orb_false_iff in Hm1 as [Hk Hm1].
      apply andb_true_iff in H1 as [Hf H1]. rewrite Hk in Hf.
      apply negb_true_iff in Hf.
      constructor; [split; [done|by apply Hx]|by apply IH']. }
    assert (forall l, Forall (fun kv => contains TARGET (escape (fst kv)) = false
                              /\ contains TARGET (snd kv) = false) l ->
                      Forall (fun kv => contains TARGET (render_item kv) = false) l)
      as Hrender.
    { intros l Hl. eapply Forall_impl; [exact Hl|].
      intros kv [? ?]. by apply free_render_item. }
    destruct sort_keys; apply Hrender; [by apply Forall_sorted_items|done].
Qed.

End DumpsFree.

(** C5 as stated fails: both documents of [leftovers] are results of the
    strip, and both are counted, one for a longer key and one for a string. *)
Lemma verification_counts_text :
  Forall (fun c => exists d, dict_ok d = true /\ config_data c = clean d) leftovers
  /\ forall floatstr, remaining floatstr leftovers = 2.
Proof.
  split; [|reflexivity].
  repeat constructor.
  - by exists (JObj [("requiresProject", JBool true); ("requiresProjectId", JInt 1)]).
  - by exists (JObj [("label", JStr "requiresProject"); ("requiresProject", JNull)]).
Qed.

(** C5, amended: on a store of cleaned documents in which no string, and no
    key other than [requiresProject] itself, is written with the text
    [requiresProject] in it, the verification query counts no row. *)
Theorem verification_zero (floatstr : spec_float -> string) (rows : list config) :
  (forall f, contains TARGET (floatstr f) = false) ->
  Forall (fun c => exists d, config_data c = clean d) rows ->
  Forall (fun c => text_free TARGET (config_data c) = true) rows ->
  remaining floatstr rows = 0.
Proof.
  intros Hfloat Hclean Hfree. unfold remaining.
  induction rows as [|c rows IH]; [done|].
  apply Forall_cons in Hclean as [[d Hd] Hclean].
  apply Forall_cons in Hfree as [Hc Hfree].
  rewrite filter_cons_False; [by apply IH|].
  unfold still_mentions. rewrite dumps_free; [done..| |done].
  rewrite Hd. apply clean_ok.
Qed.

Lemma verification_zero_witness :
  (forall f : spec_float, contains TARGET "0.0" = false)
  /\ remaining (fun _ => "0.0")
       [Config "1" "main" (clean scenario_A) 0;
        Config "2" "side" (clean (JArr [JStr "a"; JObj [("requiresProject", JStr "requiresProject")]])) 0]
     = 0.
Proof.
  split; [reflexivity|].
  apply (verification_zero (fun _ => "0.0")).
  - reflexivity.
  - repeat constructor; eexists; reflexivity.
  - repeat constructor.
Defined.

(** ** The call under the recursion limit *)

Section LimitFacts.

Variable listcomp : nat.

Lemma collect_spec (budget : nat) (items : list json) :
  Forall (fun x => forall b,
            clean_in listcomp b x
            = if Nat.leb (frames listcomp x) b then Ok (clean x)
              else Raised RecursionError) items ->
  collect (clean_in listcomp budget) items
  = if Nat.leb (fold_right (fun x m => Nat.max (frames listcomp x) m) 0 items) budget
    then Ok (map clean items)
    else Raised RecursionError.
Proof.
  induction 1 as [|x items Hx _ IH]; [done|].
  cbn [collect fold_right map]. rewrite Hx, IH.
  set (m := fold_right _ 0 items).
  destruct (Nat.leb_spec (frames listcomp x) budget),
    (Nat.leb_spec m budget),
    (Nat.leb_spec (Nat.max (frames listcomp x) m) budget); try done; lia.
Qed.

Lemma clean_loop_spec (budget : nat) (entries : list (string * json)) :
  Forall (fun kv => forall b,
            clean_in listcomp b (snd kv)
            = if Nat.leb (frames listcomp (snd kv)) b then Ok (clean (snd kv))
              else Raised RecursionError) entries ->
  forall cleaned,
    fold_left
      (fun cleaned kv =>
         match cleaned with
         | Raised e => Raised e
         | Ok cleaned =>
             if String.eqb (fst kv) TARGET then Ok cleaned
             else
               match clean_in listcomp budget (snd kv) with
               | Raised e => Raised e
               | Ok value => Ok (dict_set (fst kv) value cleaned)
               end
         end)
      entries cleaned
    = match cleaned with
      | Raised e => Raised e
      | Ok cleaned =>
          if Nat.leb
               (fold_right
                  (fun kv m => if String.eqb (fst kv) TARGET then m
                               else Nat.max (frames listcomp (snd kv)) m)
                  0 entries) budget
          then Ok (clean_entries entries cleaned)
          else Raised RecursionError
      end.
Proof.
  induction 1 as [|[k v] entries Hv _ IH]; intros [cleaned|e]; try done.
  - cbn [fold_left fold_right fst snd]. rewrite IH. simpl in Hv.
    destruct (String.eqb_spec k TARGET) as [->|Hk].
    + by rewrite clean_entries_skip.
    + rewrite Hv, clean_entries_keep by done.
      set (m := fold_right _ 0 entries).
      destruct (Nat.leb_spec (frames listcomp v) budget),
        (Nat.leb_spec m budget),
        (Nat.leb_spec (Nat.max (frames listcomp v) m) budget); try done; lia.
  - cbn [fold_left]. by rewrite IH.
Qed.

Lemma clean_in_spec (t : json) : forall budget,
  clean_in listcomp budget t
  = if Nat.leb (frames listcomp t) budget then Ok (clean t)
    else Raised RecursionError.
Proof.
  induction t as [| | | | |items IH|entries IH] using json_ind;
    intros [|budget]; try done.
  - cbn [clean_in frames]. rewrite collect_spec by done.
    change (clean (JArr items)) with (JArr (map clean items)).
    set (m := fold_right _ 0 items).
    destruct (Nat.ltb_spec budget listcomp),
      (Nat.leb_spec m (budget - listcomp)),
      (Nat.leb_spec (S (listcomp + m)) (S budget)); try done; lia.
  - cbn [clean_in frames]. rewrite (clean_loop_spec budget entries IH (Ok [])).
    rewrite clean_obj. set (m := fold_right _ 0 entries).
    destruct (Nat.leb_spec m budget), (Nat.leb_spec (S m) (S budget));
      try done; lia.
Qed.

End LimitFacts.

Lemma frames_nested (listcomp n : nat) :
  frames listcomp (nested n) = S n * S listcomp.
Proof.
  induction n as [|n IH]; [simpl; lia|].
  cbn [nested frames fold_right]. rewrite IH. lia.
Qed.



(** ** The order of the rows in an answer *)

Lemma insert_at_perm {A : Type} (n : nat) (x : A) (l : list A) :
  insert_at n x l ≡ₚ x :: l.
Proof.
  revert n. induction l as [|y l IH]; intros n; [reflexivity|].
  destruct n as [|n]; [reflexivity|]. simpl. rewrite IH. apply Permutation_swap.
Qed.

Lemma arrange_perm {A : Type} (pos : nat -> nat) (l : list A) :
  arrange pos l ≡ₚ l.
Proof.
  induction l as [|x l IH]; [done|]. simpl. by rewrite insert_at_perm, IH.
Qed.

Lemma elem_of_arrange {A : Type} (pos : nat -> nat) (l : list A) (x : A) :
  x ∈ arrange pos l <-> x ∈ l.
Proof. by rewrite arrange_perm. Qed.

Lemma insert_at_middle {A : Type} (x : A) (k1 k2 : list A) :
  insert_at (length k1) x (k1 ++ k2) = k1 ++ x :: k2.
Proof.
  induction k1 as [|y k1 IH]; simpl; [by destruct k2|]. by rewrite IH.
Qed.

Lemma arrange_ext {A : Type} (pos pos' : nat -> nat) (l : list A) :
  (forall i, i < length l -> pos i = pos' i) -> arrange pos l = arrange pos' l.
Proof.
  induction l as [|x l IH]; intros Hext; [done|].
  simpl. rewrite Hext by (simpl; lia). rewrite IH; [done|].
  intros i Hi. apply Hext. simpl. lia.
Qed.

(** Every arrangement of the rows is an answer the model allows. *)
Lemma arrange_complete {A : Type} (l l' : list A) :
  l' ≡ₚ l -> exists pos, arrange pos l = l'.
Proof.
  revert l'. induction l as [|x l IH]; intros l' Hperm.
  - apply Permutation_nil_r in Hperm as ->. by exists (fun _ => 0).
  - apply Permutation_cons_inv_r in Hperm as (k1 & k2 & -> & Hperm).
    destruct (IH (k1 ++ k2)) as [pos Hpos]; [done|].
    exists (fun i => if Nat.eqb i (length l) then length k1 else pos i).
    simpl. rewrite Nat.eqb_refl.
    rewrite (arrange_ext _ pos).
    + rewrite Hpos. apply insert_at_middle.
    + intros i Hi. by rewrite (proj2 (Nat.eqb_neq _ _)) by lia.
Qed.

(** ** The run of the script *)

Section Run.

Variable floatstr : spec_float -> string.
Variable raises : nat -> bool.
Variable now : Z.
Variable listcomp : nat.
Variable limit : nat.
Variable order : nat -> nat -> nat.

Lemma bind_ok {A B} (m : M A) (k : A -> M B) w a w' :
  m w = (Ok a, w') -> (m ≫= k) w = k a w'.
Proof. intros H. unfold mbind, M_bind. by rewrite H. Qed.

Lemma bind_raised {A B} (m : M A) (k : A -> M B) w e w' :
  m w = (Raised e, w') -> (m ≫= k) w = (Raised e, w').
Proof. intros H. unfold mbind, M_bind. by rewrite H. Qed.

Lemma call_clean_ok c w :
  fits listcomp limit c = true ->
  call_clean listcomp limit (config_data c) w = (Ok (clean (config_data c)), w).
Proof.
  intros Hfit. unfold call_clean, fits in *. by rewrite clean_in_spec, Hfit.
Qed.

Lemma call_clean_overflow c w :
  fits listcomp limit c = false ->
  call_clean listcomp limit (config_data c) w = (Raised RecursionError, w).
Proof.
  intros Hfit. unfold call_clean, fits in *. by rewrite clean_in_spec, Hfit.
Qed.

Lemma process_same c k w :
  fits listcomp limit c = true -> differs floatstr c = false ->
  process floatstr raises now listcomp limit c k w
  = (Ok k, World (table w) (txn w) (calls w) (executed w)
                 (console w ++ [NoChanges (config_name c) (config_id c)])).
Proof.
  intros Hfit H. unfold process.
  erewrite bind_ok; [|by apply call_clean_ok].
  fold (differs floatstr c). by rewrite H.
Qed.

Lemma process_write c k w :
  fits listcomp limit c = true -> differs floatstr c = true ->
  raises (calls w) = false ->
  process floatstr raises now listcomp limit c k w
  = (Ok (S k),
     World (table w)
           (update_where now (clean (config_data c)) (config_id c) (txn w))
           (S (calls w))
           (executed w ++ [Update (clean (config_data c)) (config_id c)])
           (console w ++ [Updated (config_name c) (config_id c)])).
Proof.
  intros Hfit H Hr. unfold process.
  erewrite bind_ok; [|by apply call_clean_ok].
  fold (differs floatstr c). rewrite H. simpl.
  unfold execute, mbind, M_bind, db_call. by rewrite Hr.
Qed.

Lemma process_raise c k w :
  fits listcomp limit c = true -> differs floatstr c = true ->
  raises (calls w) = true ->
  process floatstr raises now listcomp limit c k w
  = (Raised (DbError (calls w)),
     World (table w) (txn w) (S (calls w)) (executed w) (console w)).
Proof.
  intros Hfit H Hr. unfold process.
  erewrite bind_ok; [|by apply call_clean_ok].
  fold (differs floatstr c). rewrite H. simpl.
  unfold execute, mbind, M_bind, db_call. by rewrite Hr.
Qed.

Lemma process_overflow c k w :
  fits listcomp limit c = false ->
  process floatstr raises now listcomp limit c k w = (Raised RecursionError, w).
Proof.
  intros Hfit. unfold process.
  by erewrite bind_raised; [|by apply call_clean_overflow].
Qed.

Lemma for_each_app a : forall b k w,
  for_each floatstr raises now listcomp limit (a ++ b) k w
  = match for_each floatstr raises now listcomp limit a k w with
    | (Ok k', w') => for_each floatstr raises now listcomp limit b k' w'
    | (Raised e, w') => (Raised e, w')
    end.
Proof.
  induction a as [|c a IH]; intros b k w; [done|].
  cbn [app for_each]. unfold mbind, M_bind.
  destruct (process _ _ _ _ _ c k w) as [[k'|e] w']; [apply IH|done].
Qed.

Lemma for_each_ok rows : forall k w,
  Forall (fun c => fits listcomp limit c = true) rows ->
  (forall m, calls w <= m < calls w + writes floatstr rows -> raises m = false) ->
  for_each floatstr raises now listcomp limit rows k w
  = (Ok (k + writes floatstr rows),
     World (table w) (applied floatstr now rows (txn w))
           (calls w + writes floatstr rows)
           (executed w ++ stmts floatstr rows)
           (console w ++ lines floatstr rows)).
Proof.
  induction rows as [|c rows IH]; intros k w Hfit Hr.
  - unfold writes, applied, stmts, lines. simpl.
    rewrite !Nat.add_0_r, !app_nil_r. by destruct w.
  - apply Forall_cons in Hfit as [Hc Hfit].
    cbn [for_each]. unfold writes, stmts, applied, lines in *.
    rewrite filter_cons in *. cbn [fold_left map].
    destruct (differs floatstr c) eqn:Hd; simpl decide in *; cbv iota in *.
    + erewrite bind_ok; [|apply process_write; [done..|apply Hr; simpl; lia]].
      rewrite IH; simpl; [|done|].
      * f_equal; [f_equal; lia|]. f_equal; [lia| |]; by rewrite <- app_assoc.
      * intros m Hm. apply Hr. simpl. lia.
    + erewrite bind_ok; [|by apply process_same].
      rewrite IH; simpl; [|done..].
      f_equal. f_equal. by rewrite <- app_assoc.
Qed.

Lemma for_each_raise rows : forall k w n,
  Forall (fun c => fits listcomp limit c = true) rows ->
  calls w <= n < calls w + writes floatstr rows ->
  raises n = true ->
  (forall m, calls w <= m < n -> raises m = false) ->
  for_each floatstr raises now listcomp limit rows k w
  = (Raised (DbError n),
     World (table w)
           (applied floatstr now (before_write floatstr (n - calls w) rows) (txn w))
           (S n)
           (executed w ++ stmts floatstr (before_write floatstr (n - calls w) rows))
           (console w ++ lines floatstr (before_write floatstr (n - calls w) rows))).
Proof.
  induction rows as [|c rows IH]; intros k w n Hfit Hn Hr Hlt.
  - unfold writes in Hn. simpl in Hn. lia.
  - apply Forall_cons in Hfit as [Hc Hfit].
    cbn [for_each before_write]. unfold writes in Hn.
    rewrite filter_cons in Hn.
    destruct (differs floatstr c) eqn:Hd; simpl decide in Hn; cbv iota in Hn.
    + destruct (decide (n = calls w)) as [->|Hne].
      * erewrite bind_raised; [|by apply process_raise].
        rewrite Nat.sub_diag. unfold applied, stmts, lines. simpl.
        by rewrite !app_nil_r.
      * erewrite bind_ok; [|apply process_write; [done..|apply Hlt; lia]].
        replace (n - calls w) with (S (n - S (calls w))) by lia.
        rewrite (IH _ _ n); simpl; [|done|unfold writes; simpl in Hn; lia|done|].
        -- unfold applied, stmts, lines. rewrite filter_cons, Hd. simpl.
           by rewrite <- !app_assoc.
        -- intros m Hm. apply Hlt. lia.
    + erewrite bind_ok; [|by apply process_same].
      rewrite (IH _ _ n); simpl;
        [|done|unfold writes; simpl in Hn; lia|done|done].
      unfold applied, stmts, lines. rewrite filter_cons, Hd. simpl.
      by rewrite <- !app_assoc.
Qed.

Lemma reach_fits rows :
  Forall (fun c => fits listcomp limit c = true)
         (reach (fits listcomp limit) rows).
Proof.
  induction rows as [|c rows IH]; [constructor|]. simpl.
  destruct (fits listcomp limit c) eqn:Hc; by constructor.
Qed.

Lemma reach_split rows :
  (forallb (fits listcomp limit) rows = true
   /\ reach (fits listcomp limit) rows = rows)
  \/ (forallb (fits listcomp limit) rows = false
      /\ exists bad rest,
           rows = reach (fits listcomp limit) rows ++ bad :: rest
           /\ fits listcomp limit bad = false).
Proof.
  induction rows as [|c rows IH]; [by left|]. simpl.
  destruct (fits listcomp limit c) eqn:Hc.
  - destruct IH as [[Hall Heq]|(Hall & bad & rest & Heq & Hbad)].
    + left. by rewrite Heq.
    + right. split; [done|]. exists bad, rest. split; [|done].
      simpl. by rewrite <- Heq.
  - right. split; [done|]. by exists c, rows.
Qed.

Lemma forallb_fits rows :
  forallb (fits listcomp limit) rows = true ->
  Forall (fun c => fits listcomp limit c = true) rows.
Proof.
  intros H. apply Forall_forall. intros c Hc.
  apply (proj1 (forallb_forall _ _) H). by apply list_elem_of_In.
Qed.

End Run.

Ltac fields := cbn [table txn calls executed console].

Section Main.

Variable floatstr : spec_float -> string.
Variable raises : nat -> bool.
Variable now : Z.
Variable listcomp : nat.
Variable limit : nat.
Variable order : nat -> nat -> nat.

Lemma db_call_ok w :
  raises (calls w) = false ->
  db_call raises w
  = (Ok tt, World (table w) (txn w) (S (calls w)) (executed w) (console w)).
Proof. intros H. unfold db_call. by rewrite H. Qed.

Lemma db_call_raise w :
  raises (calls w) = true ->
  db_call raises w
  = (Raised (DbError (calls w)),
     World (table w) (txn w) (S (calls w)) (executed w) (console w)).
Proof. intros H. unfold db_call. by rewrite H. Qed.

Lemma execute_ok s w :
  is_update s = false -> raises (calls w) = false ->
  execute raises now s w
  = (Ok tt, World (table w) (txn w) (S (calls w)) (executed w ++ [s])
                  (console w)).
Proof.
  intros Hs H. unfold execute. erewrite bind_ok; [|by apply db_call_ok].
  by destruct s.
Qed.

Lemma execute_raise s w :
  raises (calls w) = true ->
  execute raises now s w
  = (Raised (DbError (calls w)),
     World (table w) (txn w) (S (calls w)) (executed w) (console w)).
Proof.
  intros H. unfold execute. by erewrite bind_raised; [|by apply db_call_raise].
Qed.

Lemma commit_ok w :
  raises (calls w) = false ->
  commit raises w
  = (Ok tt, World (txn w) (txn w) (S (calls w)) (executed w) (console w)).
Proof.
  intros H. unfold commit. by erewrite bind_ok; [|by apply db_call_ok].
Qed.

Lemma commit_raise w :
  raises (calls w) = true ->
  commit raises w
  = (Raised (DbError (calls w)),
     World (table w) (txn w) (S (calls w)) (executed w) (console w)).
Proof.
  intros H. unfold commit. by erewrite bind_raised; [|by apply db_call_raise].
Qed.

Lemma verdict_run rows w :
  (if Nat.eqb (remaining floatstr rows) 0 then print VerificationPassed
   else print (Warning (remaining floatstr rows))) w
  = (Ok tt, World (table w) (txn w) (calls w) (executed w)
                  (console w ++ [verdict floatstr rows])).
Proof. unfold verdict. by destruct (Nat.eqb _ 0). Qed.

Lemma sample_run rows w :
  match head rows with
  | Some sample =>
      match get_path SAMPLE_PATH (config_data sample) with
      | Some sample_item =>
          if truthy sample_item then print (Sample sample_item) else mret tt
      | None => mret tt
      end
  | None => mret tt
  end w
  = (Ok tt, World (table w) (txn w) (calls w) (executed w)
                  (console w ++ sample_lines rows)).
Proof.
  unfold sample_lines. destruct (head rows) as [sample|].
  - destruct (get_path _ _) as [item|].
    + destruct (truthy item); [done|]. rewrite app_nil_r. by destruct w.
    + rewrite app_nil_r. by destruct w.
  - rewrite app_nil_r. by destruct w.
Qed.

Ltac run_print := erewrite bind_ok; [|reflexivity]; fields.
Ltac run_with lem :=
  erewrite bind_ok; [|apply lem; fields; auto with lia]; fields.
Ltac stop_with lem :=
  erewrite bind_raised; [|apply lem; fields; auto with lia]; fields.
Ltac tidy := unfold close, banner; fields; simpl; rewrite <- ?app_assoc; simpl.

Lemma main_ok rows :
  Forall (fun c => fits listcomp limit c = true) (arrange (order 2) rows) ->
  (forall m, m < 5 + writes floatstr (arrange (order 2) rows) -> raises m = false) ->
  main floatstr raises now listcomp limit order (start rows)
  = (0%Z,
     World (applied floatstr now (arrange (order 2) rows) rows)
           (applied floatstr now (arrange (order 2) rows) rows)
           (5 + writes floatstr (arrange (order 2) rows))
           (SelectAll :: stmts floatstr (arrange (order 2) rows)
              ++ [CountLike; SelectSample])
           (banner (arrange (order 2) rows)
              ++ lines floatstr (arrange (order 2) rows)
              ++ [Success (writes floatstr (arrange (order 2) rows)); Verifying;
                  verdict floatstr
                    (applied floatstr now (arrange (order 2) rows) rows)]
              ++ sample_lines
                   (arrange (order (5 + writes floatstr (arrange (order 2) rows)))
                      (applied floatstr now (arrange (order 2) rows) rows)))).
Proof.
  intros Hfit Hr. unfold main, body, start.
  run_print. run_with db_call_ok. run_print. run_with execute_ok.
  run_print. run_print.
  erewrite bind_ok; [|apply for_each_ok; fields; [done|intros; apply Hr; lia]].
  fields.
  run_with commit_ok. run_print. run_print. run_with execute_ok.
  run_print. run_with verdict_run. run_with execute_ok. run_print.
  run_with sample_run.
  tidy. reflexivity.
Qed.

Lemma main_raise_connect rows :
  raises 0 = true ->
  main floatstr raises now listcomp limit order (start rows)
  = (1%Z, World rows rows 1 [] [Connecting; Error (DbError 0)]).
Proof.
  intros Hr. unfold main, body, start.
  run_print. stop_with db_call_raise. reflexivity.
Qed.

Lemma main_raise_select rows :
  raises 0 = false -> raises 1 = true ->
  main floatstr raises now listcomp limit order (start rows)
  = (1%Z, World rows rows 2 [] [Connecting; Fetching; Error (DbError 1)]).
Proof.
  intros Hr0 Hr. unfold main, body, start.
  run_print. run_with db_call_ok. run_print. stop_with execute_raise.
  reflexivity.
Qed.

(** The loop over the rows fetched stops where the loop over the rows
    that fit stops, when that one stops. *)
Lemma for_each_reach rows k w e w' :
  for_each floatstr raises now listcomp limit
    (reach (fits listcomp limit) rows) k w = (Raised e, w') ->
  for_each floatstr raises now listcomp limit rows k w = (Raised e, w').
Proof.
  intros H. destruct (reach_split listcomp limit rows)
    as [[_ Heq]|(_ & bad & rest & Heq & _)].
  - by rewrite <- Heq.
  - rewrite Heq at 1. by rewrite for_each_app, H.
Qed.

Lemma main_raise_update rows n :
  2 <= n < 2 + writes floatstr (reach (fits listcomp limit) (arrange (order 2) rows)) ->
  raises n = true -> (forall m, m < n -> raises m = false) ->
  main floatstr raises now listcomp limit order (start rows)
  = (1%Z,
     World rows rows (S n)
           (SelectAll
              :: stmts floatstr
                   (before_write floatstr (n - 2)
                      (reach (fits listcomp limit) (arrange (order 2) rows))))
           (banner (arrange (order 2) rows)
              ++ lines floatstr
                   (before_write floatstr (n - 2)
                      (reach (fits listcomp limit) (arrange (order 2) rows)))
              ++ [Error (DbError n)])).
Proof.
  intros Hn Hr Hlt. unfold main, body, start.
  run_print. run_with db_call_ok. run_print. run_with execute_ok.
  run_print. run_print.
  erewrite bind_raised;
    [|apply for_each_reach, (for_each_raise _ _ _ _ _ _ _ _ n); fields;
      [apply reach_fits|lia|done|intros; apply Hlt; lia]].
  fields. tidy. reflexivity.
Qed.

Lemma main_overflow rows :
  forallb (fits listcomp limit) (arrange (order 2) rows) = false ->
  (forall m,
     m < 2 + writes floatstr (reach (fits listcomp limit) (arrange (order 2) rows)) ->
     raises m = false) ->
  main floatstr raises now listcomp limit order (start rows)
  = (1%Z,
     World rows rows
           (2 + writes floatstr (reach (fits listcomp limit) (arrange (order 2) rows)))
           (SelectAll
              :: stmts floatstr (reach (fits listcomp limit) (arrange (order 2) rows)))
           (banner (arrange (order 2) rows)
              ++ lines floatstr (reach (fits listcomp limit) (arrange (order 2) rows))
              ++ [Error RecursionError])).
Proof.
  intros Hall Hr. unfold main, body, start.
  run_print. run_with db_call_ok. run_print. run_with execute_ok.
  run_print. run_print.
  destruct (reach_split listcomp limit (arrange (order 2) rows))
    as [[Hall' _]|(_ & bad & rest & Heq & Hbad)]; [congruence|].
  erewrite bind_raised.
  2:{ rewrite Heq at 1. rewrite for_each_app.
      rewrite for_each_ok; fields;
        [|apply reach_fits|intros; apply Hr; lia].
      cbn [for_each]. by erewrite bind_raised; [|by apply process_overflow]. }
  fields. tidy. reflexivity.
Qed.

Lemma main_raise_commit rows :
  Forall (fun c => fits listcomp limit c = true) (arrange (order 2) rows) ->
  raises (2 + writes floatstr (arrange (order 2) rows)) = true ->
  (forall m, m < 2 + writes floatstr (arrange (order 2) rows) -> raises m = false) ->
  main floatstr raises now listcomp limit order (start rows)
  = (1%Z,
     World rows rows (3 + writes floatstr (arrange (order 2) rows))
           (SelectAll :: stmts floatstr (arrange (order 2) rows))
           (banner (arrange (order 2) rows)
              ++ lines floatstr (arrange (order 2) rows)
              ++ [Error (DbError (2 + writes floatstr (arrange (order 2) rows)))])).
Proof.
  intros Hfit Hr Hlt. unfold main, body, start.
  run_print. run_with db_call_ok. run_print. run_with execute_ok.
  run_print. run_print.
  erewrite bind_ok; [|apply for_each_ok; fields; [done|intros; apply Hlt; lia]].
  fields. stop_with commit_raise.
  tidy. reflexivity.
Qed.

Lemma main_raise_verify rows :
  Forall (fun c => fits listcomp limit c = true) (arrange (order 2) rows) ->
  raises (3 + writes floatstr (arrange (order 2) rows)) = true ->
  (forall m, m < 3 + writes floatstr (arrange (order 2) rows) -> raises m = false) ->
  main floatstr raises now listcomp limit order (start rows)
  = (1%Z,
     World (applied floatstr now (arrange (order 2) rows) rows)
           (applied floatstr now (arrange (order 2) rows) rows)
           (4 + writes floatstr (arrange (order 2) rows))
           (SelectAll :: stmts floatstr (arrange (order 2) rows))
           (banner (arrange (order 2) rows)
              ++ lines floatstr (arrange (order 2) rows)
              ++ [Success (writes floatstr (arrange (order 2) rows)); Verifying;
                  Error (DbError (3 + writes floatstr (arrange (order 2) rows)))])).
Proof.
  intros Hfit Hr Hlt. unfold main, body, start.
  run_print. run_with db_call_ok. run_print. run_with execute_ok.
  run_print. run_print.
  erewrite bind_ok; [|apply for_each_ok; fields; [done|intros; apply Hlt; lia]].
  fields. run_with commit_ok. run_print. run_print.
  stop_with execute_raise.
  tidy. reflexivity.
Qed.

Lemma main_raise_sample rows :
  Forall (fun c => fits listcomp limit c = true) (arrange (order 2) rows) ->
  raises (4 + writes floatstr (arrange (order 2) rows)) = true ->
  (forall m, m < 4 + writes floatstr (arrange (order 2) rows) -> raises m = false) ->
  main floatstr raises now listcomp limit order (start rows)
  = (1%Z,
     World (applied floatstr now (arrange (order 2) rows) rows)
           (applied floatstr now (arrange (order 2) rows) rows)
           (5 + writes floatstr (arrange (order 2) rows))
           (SelectAll :: stmts floatstr (arrange (order 2) rows) ++ [CountLike])
           (banner (arrange (order 2) rows)
              ++ lines floatstr (arrange (order 2) rows)
              ++ [Success (writes floatstr (arrange (order 2) rows)); Verifying;
                  verdict floatstr
                    (applied floatstr now (arrange (order 2) rows) rows);
                  Error (DbError (4 + writes floatstr (arrange (order 2) rows)))])).
Proof.
  intros Hfit Hr Hlt. unfold main, body, start.
  run_print. run_with db_call_ok. run_print. run_with execute_ok.
  run_print. run_print.
  erewrite bind_ok; [|apply for_each_ok; fields; [done|intros; apply Hlt; lia]].
  fields. run_with commit_ok. run_print. run_print. run_with execute_ok.
  run_print. run_with verdict_run. stop_with execute_raise.
  tidy. reflexivity.
Qed.

End Main.

Lemma first_raise_from_None raises len : forall s,
  first_raise_from raises s len = None ->
  forall m, s <= m < s + len -> raises m = false.
Proof.
  induction len as [|len IH]; intros s H m Hm; [lia|].
  simpl in H. destruct (raises s) eqn:Hs; [done|].
  destruct (decide (m = s)) as [->|Hne]; [done|].
  apply (IH (S s)); [done|lia].
Qed.

Lemma first_raise_from_Some raises len : forall s n,
  first_raise_from raises s len = Some n ->
  s <= n < s + len /\ raises n = true
  /\ forall m, s <= m < n -> raises m = false.
Proof.
  induction len as [|len IH]; intros s n H; [done|].
  simpl in H. destruct (raises s) eqn:Hs.
  - injection H as <-. split; [lia|]. split; [done|]. intros m Hm. lia.
  - apply IH in H as (Hn & Hr & Hlt). split; [lia|]. split; [done|].
    intros m Hm. destruct (decide (m = s)) as [->|Hne]; [done|].
    apply Hlt. lia.
Qed.

Lemma first_raise_from_None_iff raises len s :
  first_raise_from raises s len = None
  <-> forall m, s <= m < s + len -> raises m = false.
Proof.
  split; [apply first_raise_from_None|].
  revert s. induction len as [|len IH]; intros s H; [done|].
  simpl. rewrite H by lia. apply IH. intros m Hm. apply H. lia.
Qed.

Lemma first_raise_from_Some_iff raises len s n :
  first_raise_from raises s len = Some n
  <-> s <= n < s + len /\ raises n = true
      /\ forall m, s <= m < n -> raises m = false.
Proof.
  split; [apply first_raise_from_Some|].
  revert s. induction len as [|len IH]; intros s (Hn & Hr & Hlt); [lia|].
  simpl. destruct (decide (n = s)) as [->|Hne].
  - by rewrite Hr.
  - rewrite Hlt by lia. apply IH. split; [lia|]. split; [done|].
    intros m Hm. apply Hlt. lia.
Qed.

Lemma first_raise_none raises len :
  first_raise raises len = None <-> forall m, m < len -> raises m = false.
Proof.
  unfold first_raise. rewrite first_raise_from_None_iff.
  split; intros H m Hm; apply H; lia.
Qed.

Lemma first_raise_some raises len n :
  first_raise raises len = Some n
  <-> n < len /\ raises n = true /\ forall m, m < n -> raises m = false.
Proof.
  unfold first_raise. rewrite first_raise_from_Some_iff.
  split; intros (Hn & Hr & Hlt); (split; [lia|]); (split; [done|]);
    intros m Hm; apply Hlt; lia.
Qed.

(** The first call that raises does not depend on how far one looks. *)
Lemma first_raise_le raises a b n :
  first_raise raises a = Some n -> a <= b -> first_raise raises b = Some n.
Proof.
  rewrite !first_raise_some. intros (Hn & Hr & Hlt) Hab.
  split; [lia|done].
Qed.

Lemma writes_app floatstr a b :
  writes floatstr (a ++ b) = writes floatstr a + writes floatstr b.
Proof. unfold writes. by rewrite filter_app, length_app. Qed.

Lemma writes_reach floatstr fits rows :
  writes floatstr (reach fits rows) <= writes floatstr rows.
Proof.
  unfold writes. induction rows as [|c rows IH]; [done|]. simpl.
  destruct (fits c); [|simpl; lia].
  rewrite !filter_cons. destruct (decide _); simpl; lia.
Qed.

Section Cases.

Variable floatstr : spec_float -> string.
Variable raises : nat -> bool.
Variable now : Z.
Variable listcomp : nat.
Variable limit : nat.
Variable order : nat -> nat -> nat.

(** Every run, by the exception that ends it. *)
Lemma main_cases (rows : list config) :
  let fetched := arrange (order 2) rows in
  let visited := reach (fits listcomp limit) fetched in
  let w := writes floatstr fetched in
  let final := applied floatstr now fetched rows in
  let run := main floatstr raises now listcomp limit order (start rows) in
  let failure := failure floatstr raises listcomp limit fetched in
  let commits := commits floatstr raises listcomp limit fetched in
  (failure = None /\ commits = true
   /\ Forall (fun c => fits listcomp limit c = true) fetched
   /\ (forall m, m < 5 + w -> raises m = false)
   /\ run = (0%Z,
             World final final (5 + w)
                   (SelectAll :: stmts floatstr fetched ++ [CountLike; SelectSample])
                   (banner fetched ++ lines floatstr fetched
                      ++ [Success w; Verifying; verdict floatstr final]
                      ++ sample_lines (arrange (order (5 + w)) final))))
  \/ (failure = Some (DbError 0) /\ commits = false
      /\ run = (1%Z, World rows rows 1 [] [Connecting; Error (DbError 0)]))
  \/ (failure = Some (DbError 1) /\ commits = false
      /\ run = (1%Z, World rows rows 2 []
                           [Connecting; Fetching; Error (DbError 1)]))
  \/ (exists n, 2 <= n < 2 + writes floatstr visited
                /\ failure = Some (DbError n) /\ commits = false
                /\ run = (1%Z,
                          World rows rows (S n)
                                (SelectAll
                                   :: stmts floatstr
                                        (before_write floatstr (n - 2) visited))
                                (banner fetched
                                   ++ lines floatstr
                                        (before_write floatstr (n - 2) visited)
                                   ++ [Error (DbError n)])))
  \/ (failure = Some RecursionError /\ commits = false
      /\ forallb (fits listcomp limit) fetched = false
      /\ run = (1%Z,
                World rows rows (2 + writes floatstr visited)
                      (SelectAll :: stmts floatstr visited)
                      (banner fetched ++ lines floatstr visited
                         ++ [Error RecursionError])))
  \/ (failure = Some (DbError (2 + w)) /\ commits = false
      /\ Forall (fun c => fits listcomp limit c = true) fetched
      /\ run = (1%Z,
                World rows rows (3 + w) (SelectAll :: stmts floatstr fetched)
                      (banner fetched ++ lines floatstr fetched
                         ++ [Error (DbError (2 + w))])))
  \/ (failure = Some (DbError (3 + w)) /\ commits = true
      /\ Forall (fun c => fits listcomp limit c = true) fetched
      /\ run = (1%Z,
                World final final (4 + w) (SelectAll :: stmts floatstr fetched)
                      (banner fetched ++ lines floatstr fetched
                         ++ [Success w; Verifying; Error (DbError (3 + w))])))
  \/ (failure = Some (DbError (4 + w)) /\ commits = true
      /\ Forall (fun c => fits listcomp limit c = true) fetched
      /\ run = (1%Z,
                World final final (5 + w)
                      (SelectAll :: stmts floatstr fetched ++ [CountLike])
                      (banner fetched ++ lines floatstr fetched
                         ++ [Success w; Verifying; verdict floatstr final;
                             Error (DbError (4 + w))]))).
Proof.
  intros fetched visited w final run fail com.
  subst run fail com. unfold failure, commits. fold fetched. fold visited. fold w.
  pose proof (writes_reach floatstr (fits listcomp limit) fetched) as Hle.
  fold visited in Hle. fold w in Hle.
  destruct (first_raise raises (2 + writes floatstr visited)) as [n|] eqn:Hpre.
  - (* a call raises before the loop, or in it *)
    assert (forallb (fits listcomp limit) fetched
            && match first_raise raises (3 + w) with
               | Some _ => false
               | None => true
               end = false) as Hcom.
    { rewrite (first_raise_le _ _ (3 + w) _ Hpre) by lia. apply andb_false_r. }
    apply first_raise_some in Hpre as (Hn & Hr & Hlt).
    assert (n = 0 \/ n = 1 \/ 2 <= n < 2 + writes floatstr visited) as Hcase
      by lia.
    destruct Hcase as [->|[->|Hu]].
    + right. left. split; [done|]. split; [done|].
      by apply main_raise_connect.
    + right. right. left. split; [done|]. split; [done|].
      apply main_raise_select; auto.
    + do 3 right. left. exists n. split; [done|]. split; [done|].
      split; [done|]. by apply main_raise_update.
  - rewrite first_raise_none in Hpre.
    destruct (reach_split listcomp limit fetched)
      as [[Hall Heq]|(Hall & _)]; fold fetched in Hall; rewrite Hall.
    + fold fetched visited in Heq. rewrite Heq in Hpre. clear Hle.
      apply forallb_fits in Hall.
      destruct (first_raise raises (5 + w)) as [n|] eqn:Hfirst.
      * apply first_raise_some in Hfirst as (Hn & Hr & Hlt).
        assert (n = 2 + w \/ n = 3 + w \/ n = 4 + w) as Hcase.
        { destruct (decide (n < 2 + w)) as [Hlow|]; [|lia].
          apply Hpre in Hlow. congruence. }
        destruct Hcase as [->|[->| ->]].
        -- do 5 right. left. split; [done|]. split.
           { assert (first_raise raises (3 + w) = Some (2 + w)) as ->; [|done].
             apply first_raise_some. split; [lia|done]. }
           split; [done|]. by apply main_raise_commit.
        -- do 6 right. left. split; [done|]. split.
           { assert (first_raise raises (3 + w) = None) as ->; [|done].
             apply first_raise_none. intros m Hm. apply Hlt. lia. }
           split; [done|]. by apply main_raise_verify.
        -- do 7 right. split; [done|]. split.
           { assert (first_raise raises (3 + w) = None) as ->; [|done].
             apply first_raise_none. intros m Hm. apply Hlt. lia. }
           split; [done|]. by apply main_raise_sample.
      * left. rewrite first_raise_none in Hfirst. split; [done|]. split.
        { assert (first_raise raises (3 + w) = None) as ->; [|done].
          apply first_raise_none. intros m Hm. apply Hfirst. lia. }
        split; [done|]. split; [done|]. by apply main_ok.
    + do 4 right. left. split; [done|]. split; [done|]. split; [done|].
      by apply main_overflow.
Qed.

End Cases.

Section Exit.

Variable floatstr : spec_float -> string.
Variable raises : nat -> bool.
Variable now : Z.
Variable listcomp : nat.
Variable limit : nat.
Variable order : nat -> nat -> nat.





End Exit.

Section Reconcile.

Variable floatstr : spec_float -> string.
Variable raises : nat -> bool.
Variable now : Z.
Variable listcomp : nat.
Variable limit : nat.
Variable order : nat -> nat -> nat.

Lemma differs_spec c :
  differs floatstr c = true
  <-> dumps floatstr true (config_data c)
      <> dumps floatstr true (clean (config_data c)).
Proof. unfold differs. by rewrite negb_true_iff, String.eqb_neq. Qed.


Lemma elem_of_stmts d i rows :
  Update d i ∈ stmts floatstr rows
  <-> exists c, c ∈ rows /\ differs floatstr c = true
                /\ d = clean (config_data c) /\ i = config_id c.
Proof.
  unfold stmts. rewrite list_elem_of_fmap. split.
  - intros (c & [= -> ->] & Hc). apply list_elem_of_filter in Hc as [? ?].
    by exists c.
  - intros (c & Hc & Hd & -> & ->). exists c. split; [done|].
    by apply list_elem_of_filter.
Qed.








Lemma writes_perm fetched rows :
  fetched ≡ₚ rows -> writes floatstr fetched = writes floatstr rows.
Proof. intros Hperm. unfold writes. by rewrite Hperm. Qed.


End Reconcile.


(** C6: on scenario A the strip returns the document without the flag, and
    the run over a table holding that one document, with no call raising
    and the frames the document needs at hand, writes it back and reports
    one configuration updated. *)
Theorem scenario_A_updated :
  clean scenario_A
  = JObj [("sections",
           JArr [JObj [("items",
                        JArr [JObj [("id", JInt 1); ("label", JStr "X")]])]])]
  /\ forall floatstr now listcomp limit order,
       6 + 2 * listcomp <= limit ->
       main floatstr (fun _ => false) now listcomp limit order
            (start [Config "1" "main" scenario_A 0])
       = (0%Z,
          World [Config "1" "main" (clean scenario_A) now]
                [Config "1" "main" (clean scenario_A) now]
                6
                [SelectAll; Update (clean scenario_A) "1"; CountLike; SelectSample]
                [Connecting; Fetching; Found 1; Updated "main" "1"; Success 1;
                 Verifying; VerificationPassed;
                 Sample (JObj [("id", JInt 1); ("label", JStr "X")])]).
Proof.
  split; [reflexivity|]. intros floatstr now listcomp limit order Hlimit.
  rewrite main_ok.
  - reflexivity.
  - repeat constructor. unfold fits. apply Nat.leb_le. simpl. lia.
  - done.
Qed.

Lemma scenario_A_updated_witness :
  6 + 2 * 1 <= 998
  /\ fst (main (fun _ => "0.0") (fun _ => false) 7 1 998 (fun _ i => i)
               (start [Config "1" "main" scenario_A 0])) = 0%Z.
Proof.
  assert (6 + 2 * 1 <= 998) as Hlimit by lia.
  split; [exact Hlimit|].
  exact (f_equal fst
           (proj2 scenario_A_updated (fun _ => "0.0") 7%Z 1 998 (fun _ i => i)
              Hlimit)).
Defined.

(** * Further properties *)

(** ** The length of the serialised text *)

Lemma length_append (x y : string) :
  String.length (x +:+ y) = String.length x + String.length y.
Proof.
  induction x as [|c x IH]; [done|]. rewrite append_cons. simpl. by rewrite IH.
Qed.

Lemma length_concat (parts : list string) :
  String.length (String.concat ", " parts) = joined_length parts.
Proof.
  unfold joined_length. induction parts as [|x parts IH]; [done|].
  destruct parts as [|y parts]; [simpl; lia|].
  change (String.concat ?s (x :: y :: parts))
    with (x +:+ s +:+ String.concat s (y :: parts)).
  rewrite !length_append, IH. simpl. lia.
Qed.

Lemma joined_length_le (l' l : list string) :
  sum_list (String.length <$> l') <= sum_list (String.length <$> l) ->
  length l' <= length l ->
  joined_length l' <= joined_length l.
Proof. unfold joined_length. lia. Qed.

Lemma joined_length_lt (l' l : list string) :
  sum_list (String.length <$> l') < sum_list (String.length <$> l) ->
  length l' <= length l ->
  joined_length l' < joined_length l.
Proof. unfold joined_length. lia. Qed.

Lemma length_render_item (kv : string * string) :
  String.length (render_item kv)
  = String.length (py_encode_basestring_ascii (fst kv)) + 2
    + String.length (snd kv).
Proof. unfold render_item. rewrite !length_append. simpl. lia. Qed.

Lemma length_encode_pos (s : string) :
  0 < String.length (py_encode_basestring_ascii s).
Proof. unfold py_encode_basestring_ascii. simpl. lia. Qed.

Lemma insert_item_measure (f : string * string -> nat) kv l :
  sum_list (f <$> insert_item kv l) = f kv + sum_list (f <$> l)
  /\ length (insert_item kv l) = S (length l).
Proof.
  induction l as [|kv' l [IH1 IH2]]; [done|].
  cbn [insert_item]. destruct (String.leb _ _); [done|].
  rewrite !fmap_cons. cbn [sum_list sum_list_with length].
  change (sum_list_with id ?x) with (sum_list x). unfold id in *.
  rewrite IH1, IH2. lia.
Qed.

Lemma sorted_items_measure (f : string * string -> nat) l :
  sum_list (f <$> sorted_items l) = sum_list (f <$> l)
  /\ length (sorted_items l) = length l.
Proof.
  induction l as [|kv l [IH1 IH2]]; [done|].
  cbn [sorted_items fold_right]. fold (sorted_items l).
  destruct (insert_item_measure f kv (sorted_items l)) as [-> ->].
  rewrite fmap_cons. cbn [sum_list sum_list_with length].
  change (sum_list_with id ?x) with (sum_list x). unfold id in *.
  rewrite IH1, IH2. done.
Qed.

Section Lengths.

Variable floatstr : spec_float -> string.
Variable sort_keys : bool.

Lemma length_dumps_obj (entries : list (string * json)) :
  String.length (dumps floatstr sort_keys (JObj entries))
  = 2 + (sum_list (entry_length floatstr sort_keys <$> entries) + 2 * pred (length entries)).
Proof.
  cbn [dumps]. rewrite append_cons, append_nil. cbn [String.length].
  rewrite length_append, length_concat. unfold joined_length.
  rewrite length_fmap, <- list_fmap_compose.
  set (items := map _ entries).
  assert (sum_list ((String.length ∘ render_item) <$> items)
          = sum_list (entry_length floatstr sort_keys <$> entries)
          /\ length items = length entries) as [Hs Hn].
  { subst items. rewrite length_map. split; [|done].
    change (map ?f entries) with (f <$> entries).
    by rewrite <- list_fmap_compose. }
  destruct sort_keys.
  - destruct (sorted_items_measure (String.length ∘ render_item) items)
      as [-> ->]. rewrite Hs, Hn. simpl. lia.
  - rewrite Hs, Hn. simpl. lia.
Qed.

Lemma length_dumps_arr (items : list json) :
  String.length (dumps floatstr sort_keys (JArr items))
  = 2 + (sum_list ((String.length ∘ dumps floatstr sort_keys) <$> items)
         + 2 * pred (length items)).
Proof.
  cbn [dumps]. rewrite append_cons, append_nil. cbn [String.length].
  rewrite length_append, length_concat. unfold joined_length.
  change (map ?f items) with (f <$> items).
  rewrite length_fmap, <- list_fmap_compose. simpl. lia.
Qed.

Lemma strip_shortens_both (t : json) :
  dict_ok t = true ->
  String.length (dumps floatstr sort_keys (clean t))
  <= String.length (dumps floatstr sort_keys t)
  /\ (mentions_target t = true ->
      String.length (dumps floatstr sort_keys (clean t))
      < String.length (dumps floatstr sort_keys t)).
Proof.
  induction t as [| | | | |items IH|entries IH] using json_ind;
    try (intros _; split; [done|discriminate]).
  - intros Hok. change (clean (JArr items)) with (JArr (clean <$> items)).
    rewrite !length_dumps_arr, length_fmap, <- list_fmap_compose.
    cbn [dict_ok mentions_target] in *.
    assert (sum_list ((String.length ∘ dumps floatstr sort_keys ∘ clean) <$> items)
            <= sum_list ((String.length ∘ dumps floatstr sort_keys) <$> items)
            /\ (existsb mentions_target items = true ->
                sum_list ((String.length ∘ dumps floatstr sort_keys ∘ clean) <$> items)
                < sum_list ((String.length ∘ dumps floatstr sort_keys) <$> items)))
      as [Hle Hlt].
    { induction IH as [|x items Hx _ IH']; [split; [done|discriminate]|].
      simpl in Hok. apply andb_true_iff in Hok as [Hx1 Hok].
      destruct (Hx Hx1) as [Hxle Hxlt]. destruct (IH' Hok) as [Hle Hlt].
      rewrite !fmap_cons. cbn [sum_list_with existsb compose]. unfold id in *.
      split; [lia|]. intros [Hm|Hm]%orb_true_iff.
      - specialize (Hxlt Hm). lia.
      - specialize (Hlt Hm). lia. }
    split; [lia|]. intros Hm. specialize (Hlt Hm). lia.
  - intros Hok. pose proof Hok as Hd. simpl in Hd.
    apply andb_true_iff in Hd as [Hd Hall].
    rewrite clean_obj_distinct by done. rewrite !length_dumps_obj.
    cbn [mentions_target]. unfold strip. rewrite length_fmap.
    assert (sum_list (entry_length floatstr sort_keys <$>
                        ((fun kv => (fst kv, clean (snd kv)))
                           <$> filter (fun kv => fst kv <> TARGET) entries))
            <= sum_list (entry_length floatstr sort_keys <$> entries)
            /\ length (filter (fun kv => fst kv <> TARGET) entries)
               <= length entries
            /\ (existsb (fun kv => String.eqb (fst kv) TARGET
                                   || mentions_target (snd kv)) entries = true ->
                sum_list (entry_length floatstr sort_keys <$>
                            ((fun kv => (fst kv, clean (snd kv)))
                               <$> filter (fun kv => fst kv <> TARGET) entries))
                < sum_list (entry_length floatstr sort_keys <$> entries)))
      as (Hle & Hn & Hlt).
    { clear Hd Hok.
      induction IH as [|[k v] entries Hx _ IH'];
        [split; [done|split; [done|discriminate]]|].
      simpl in Hall. apply andb_true_iff in Hall as [Hv Hall].
      destruct (Hx Hv) as [Hxle Hxlt]. destruct (IH' Hall) as (Hle & Hn & Hlt).
      assert (0 < entry_length floatstr sort_keys (k, v)) as Hpos.
      { unfold entry_length. rewrite length_render_item.
        pose proof (length_encode_pos k). simpl. lia. }
      rewrite filter_cons. destruct (decide ((k, v).1 ≠ TARGET)) as [Hk|Hk].
      - rewrite !fmap_cons. cbn [sum_list_with length existsb fst snd]. unfold id in *.
        assert (entry_length floatstr sort_keys (k, clean v) <= entry_length floatstr sort_keys (k, v)
                /\ (mentions_target v = true ->
                    entry_length floatstr sort_keys (k, clean v) < entry_length floatstr sort_keys (k, v)))
          as [Hele Helt].
        { unfold entry_length. rewrite !length_render_item. simpl in *.
          split; [lia|]. intros Hm. specialize (Hxlt Hm). lia. }
        split; [lia|]. split; [lia|].
        simpl in Hk. apply String.eqb_neq in Hk. rewrite Hk. cbn [orb].
        intros [Hm|Hm]%orb_true_iff.
        + specialize (Helt Hm). lia.
        + specialize (Hlt Hm). lia.
      - rewrite !fmap_cons. cbn [sum_list_with length existsb fst snd]. unfold id in *.
        split; [lia|]. split; [lia|]. intros _. lia. }
    split; [lia|]. intros Hm. specialize (Hlt Hm). lia.
Qed.

End Lengths.

(** ** The transformer *)

(** X1: whatever the tree, the result holds no [requiresProject] key at any
    depth, and none of its dictionaries holds a key twice. *)
Theorem result_has_no_target (t : json) :
  mentions_target (clean_configuration_data t) = false
  /\ dict_ok (clean_configuration_data t) = true.
Proof. destruct (clean_ok t). by split. Qed.

(** X2: the strip returns a tree as it is exactly when the tree holds no
    [requiresProject] key at any depth. *)
Theorem unchanged_iff_absent (t : json) :
  dict_ok t = true ->
  clean_configuration_data t = t <-> mentions_target t = false.
Proof.
  intros Hok. split.
  - intros Heq. rewrite <- Heq. apply clean_ok.
  - by apply clean_fixed.
Qed.

Lemma unchanged_iff_absent_witness :
  dict_ok scenario_A = true
  /\ (clean_configuration_data scenario_A = scenario_A
      <-> mentions_target scenario_A = false).
Proof.
  split; [reflexivity|]. exact (unchanged_iff_absent scenario_A eq_refl).
Defined.

(** X13: the value stored under a [requiresProject] key has no part in the
    result, wherever the entry stands in its dictionary. *)
Theorem dropped_value_irrelevant (before after : list (string * json)) (v : json) :
  clean_configuration_data (JObj (before ++ (TARGET, v) :: after))
  = clean_configuration_data (JObj (before ++ after)).
Proof.
  rewrite !clean_obj. unfold clean_entries. by rewrite !fold_left_app.
Qed.

Section LengthsFacts.

Variable floatstr : spec_float -> string.

(** X3: the text of the stripped tree is never longer than the text of the
    tree, keys sorted or not, and it is shorter exactly when the tree holds
    a [requiresProject] key. *)
Theorem strip_shortens (sort_keys : bool) (t : json) :
  dict_ok t = true ->
  String.length (dumps floatstr sort_keys (clean_configuration_data t))
  <= String.length (dumps floatstr sort_keys t)
  /\ (String.length (dumps floatstr sort_keys (clean_configuration_data t))
      < String.length (dumps floatstr sort_keys t)
      <-> mentions_target t = true).
Proof.
  intros Hok.
  destruct (strip_shortens_both floatstr sort_keys t Hok) as [Hle Hlt].
  split; [done|]. split; [|done].
  intros Hlen. destruct (mentions_target t) eqn:Hm; [done|].
  rewrite clean_fixed in Hlen by done. lia.
Qed.

(** X4: the comparison of the two sorted texts made for a row finds a
    difference exactly when the document holds a [requiresProject] key. *)
Theorem rewritten_iff_key_present (d : json) :
  dict_ok d = true ->
  dumps floatstr true d <> dumps floatstr true (clean_configuration_data d)
  <-> mentions_target d = true.
Proof.
  intros Hok. split.
  - intros Hne. destruct (mentions_target d) eqn:Hm; [done|].
    by rewrite clean_fixed in Hne.
  - intros Hm Heq.
    destruct (strip_shortens_both floatstr true d Hok) as [_ Hlt].
    specialize (Hlt Hm). rewrite <- Heq in Hlt. lia.
Qed.

End LengthsFacts.

Lemma strip_shortens_witness :
  dict_ok scenario_A = true
  /\ String.length (dumps (fun _ => "0.0") false (clean_configuration_data scenario_A))
     <= String.length (dumps (fun _ => "0.0") false scenario_A).
Proof.
  split; [reflexivity|].
  exact (proj1 (strip_shortens (fun _ => "0.0") false scenario_A eq_refl)).
Defined.

Lemma rewritten_iff_key_present_witness :
  dict_ok scenario_A = true
  /\ (dumps (fun _ => "0.0") true scenario_A
      <> dumps (fun _ => "0.0") true (clean_configuration_data scenario_A)
      <-> mentions_target scenario_A = true).
Proof.
  split; [reflexivity|].
  exact (rewritten_iff_key_present (fun _ => "0.0") scenario_A eq_refl).
Defined.

(** ** The table after the loop *)

Section RunFacts.

Variable floatstr : spec_float -> string.
Variable now : Z.

Lemma differs_clean i n d t :
  differs floatstr (Config i n (clean d) t) = false.
Proof.
  unfold differs. simpl. destruct (clean_ok d) as [Hok Hm].
  rewrite (clean_fixed (clean d)) by done. by rewrite String.eqb_refl.
Qed.

Lemma before_write_prefix rows : forall j,
  exists rest, rows = before_write floatstr j rows ++ rest.
Proof.
  induction rows as [|c rows IH]; intros j; [by exists []|].
  cbn [before_write]. destruct (differs floatstr c).
  - destruct j as [|j]; [by exists (c :: rows)|].
    destruct (IH j) as [rest Hrest]. exists rest. simpl. by rewrite <- Hrest.
  - destruct (IH j) as [rest Hrest]. exists rest. simpl. by rewrite <- Hrest.
Qed.

Lemma stmts_app a b :
  stmts floatstr (a ++ b) = stmts floatstr a ++ stmts floatstr b.
Proof. unfold stmts. by rewrite filter_app, map_app. Qed.

Lemma reach_prefix (fits : config -> bool) rows :
  exists rest, rows = reach fits rows ++ rest.
Proof.
  induction rows as [|c rows [rest IH]]; [by exists []|]. simpl.
  destruct (fits c); [|by exists (c :: rows)].
  exists rest. simpl. by rewrite <- IH.
Qed.

Lemma update_where_keys d i seen :
  (fun c => (config_id c, config_name c)) <$> update_where now d i seen
  = (fun c => (config_id c, config_name c)) <$> seen.
Proof.
  unfold update_where. change (map ?f seen) with (f <$> seen).
  rewrite <- list_fmap_compose.
  apply list_fmap_ext; intros _ c _; simpl; by destruct (String.eqb _ _).
Qed.

Lemma applied_keys rows : forall seen,
  (fun c => (config_id c, config_name c)) <$> applied floatstr now rows seen
  = (fun c => (config_id c, config_name c)) <$> seen.
Proof.
  unfold applied. induction rows as [|c rows IH]; intros seen; [done|].
  simpl. rewrite IH. destruct (differs floatstr c); [apply update_where_keys|done].
Qed.






Lemma applied_settled rows : forall seen,
  (forall x, x ∈ seen -> differs floatstr x = true ->
             exists c, c ∈ rows /\ config_id c = config_id x
                       /\ differs floatstr c = true) ->
  forall x, x ∈ applied floatstr now rows seen -> differs floatstr x = false.
Proof.
  unfold applied. induction rows as [|c rows IH]; intros seen Hseen x Hx.
  - simpl in Hx. destruct (differs floatstr x) eqn:Hd; [|done].
    destruct (Hseen x Hx Hd) as (c & Hc & _). by apply elem_of_nil in Hc.
  - simpl in Hx. revert x Hx. apply IH. intros y Hy Hd.
    destruct (differs floatstr c) eqn:Hc.
    + unfold update_where in Hy. apply list_elem_of_fmap in Hy as (z & -> & Hz).
      destruct (String.eqb_spec (config_id z) (config_id c)) as [Heq|Hne].
      * by rewrite differs_clean in Hd.
      * destruct (Hseen z Hz Hd) as (c' & Hc' & Hid & Hdc').
        apply elem_of_cons in Hc' as [->|Hc']; [congruence|]. by exists c'.
    + destruct (Hseen y Hy Hd) as (c' & Hc' & Hid & Hdc').
      apply elem_of_cons in Hc' as [->|Hc']; [congruence|]. by exists c'.
Qed.

Lemma applied_docs rows : forall seen x,
  x ∈ applied floatstr now rows seen ->
  (exists y, y ∈ seen /\ config_data x = config_data y)
  \/ exists c, c ∈ rows /\ config_data x = clean (config_data c).
Proof.
  unfold applied. induction rows as [|c rows IH]; intros seen x Hx.
  - left. by exists x.
  - simpl in Hx. apply IH in Hx as [(y & Hy & Heq)|(c' & Hc' & Heq)].
    + destruct (differs floatstr c); [|left; by exists y].
      unfold update_where in Hy. apply list_elem_of_fmap in Hy as (z & -> & Hz).
      destruct (String.eqb _ _).
      * right. exists c. split; [left|done].
      * left. by exists z.
    + right. exists c'. split; [by right|done].
Qed.


End RunFacts.


Section RunTheorems.

Variable floatstr : spec_float -> string.
Variable raises : nat -> bool.
Variable now : Z.
Variable listcomp : nat.
Variable limit : nat.
Variable order : nat -> nat -> nat.

Lemma quiet_doc (c : config) :
  dict_ok (config_data c) = true -> differs floatstr c = false ->
  mentions_target (config_data c) = false.
Proof.
  intros Hok Hd. destruct (mentions_target (config_data c)) eqn:Hm; [|done].
  destruct (strip_shortens_both floatstr true _ Hok) as [_ Hlt].
  specialize (Hlt Hm). unfold differs in Hd.
  apply negb_false_iff, String.eqb_eq in Hd. rewrite <- Hd in Hlt. lia.
Qed.

Lemma main_table (rows : list config) :
  table (snd (main floatstr raises now listcomp limit order (start rows)))
  = if commits floatstr raises listcomp limit (arrange (order 2) rows)
    then applied floatstr now (arrange (order 2) rows) rows
    else rows.
Proof.
  destruct (main_cases floatstr raises now listcomp limit order rows)
    as [(_ & -> & _ & _ & ->)|[(_ & -> & ->)|[(_ & -> & ->)
       |[(n & _ & _ & -> & ->)|[(_ & -> & _ & ->)|[(_ & -> & _ & ->)
       |[(_ & -> & _ & ->)|(_ & -> & _ & ->)]]]]]]]; done.
Qed.

Lemma main_executed (rows : list config) :
  executed (snd (main floatstr raises now listcomp limit order (start rows)))
  `prefix_of` SelectAll :: stmts floatstr (arrange (order 2) rows)
                ++ [CountLike; SelectSample].
Proof.
  destruct (reach_prefix (fits listcomp limit) (arrange (order 2) rows))
    as [tail Htail].
  destruct (main_cases floatstr raises now listcomp limit order rows)
    as [(_ & _ & _ & _ & ->)|[(_ & _ & ->)|[(_ & _ & ->)
       |[(n & _ & _ & _ & ->)|[(_ & _ & _ & ->)|[(_ & _ & _ & ->)
       |[(_ & _ & _ & ->)|(_ & _ & _ & ->)]]]]]]];
    cbn [snd executed].
  - done.
  - apply prefix_nil.
  - apply prefix_nil.
  - destruct (before_write_prefix floatstr
                (reach (fits listcomp limit) (arrange (order 2) rows)) (n - 2))
      as [rest Hrest].
    rewrite Htail at 2. rewrite Hrest at 2.
    rewrite !stmts_app, <- !app_assoc.
    apply prefix_cons, prefix_app_r. done.
  - rewrite Htail at 2. rewrite stmts_app, <- app_assoc.
    apply prefix_cons, prefix_app_r. done.
  - apply prefix_cons, prefix_app_r. done.
  - apply prefix_cons, prefix_app_r. done.
  - apply prefix_cons, prefix_app, prefix_cons, prefix_nil.
Qed.



Lemma final_docs (fetched rows : list config) (x : config) :
  fetched ≡ₚ rows ->
  (forall c, c ∈ rows -> dict_ok (config_data c) = true) ->
  x ∈ applied floatstr now fetched rows ->
  dict_ok (config_data x) = true /\ mentions_target (config_data x) = false.
Proof.
  intros Hperm Hok Hx.
  assert (differs floatstr x = false) as Hd.
  { revert x Hx. apply applied_settled. intros y Hy Hdy. exists y.
    by rewrite Hperm. }
  assert (dict_ok (config_data x) = true) as Hokx.
  { apply applied_docs in Hx as [(y & Hy & ->)|(c & Hc & ->)]; [by apply Hok|].
    apply clean_ok. }
  split; [done|]. by apply quiet_doc.
Qed.

End RunTheorems.

(** ** The run *)

Section RunProperties.

Variable floatstr : spec_float -> string.
Variable raises : nat -> bool.
Variable now : Z.
Variable listcomp : nat.
Variable limit : nat.
Variable order : nat -> nat -> nat.



(** X7: no run adds or removes a row, and none changes an id or a name:
    the pairs of id and name in the table are the ones that were there. *)
Theorem rows_kept (rows : list config) :
  (fun c => (config_id c, config_name c))
    <$> table (snd (main floatstr raises now listcomp limit order (start rows)))
  ≡ₚ (fun c => (config_id c, config_name c)) <$> rows.
Proof.
  rewrite main_table. destruct (commits _ _ _ _ _); [|done].
  by rewrite applied_keys.
Qed.

(** X14: the statements a run executes are a beginning of the sequence
    select, one update per differing row in the order in which the rows
    were fetched, count, sample. *)
Theorem statements_in_order (rows : list config) :
  executed (snd (main floatstr raises now listcomp limit order (start rows)))
  `prefix_of`
  SelectAll
    :: map (fun c => Update (clean_configuration_data (config_data c))
                            (config_id c))
           (filter (fun c => differs floatstr c = true)
                   (arrange (order 2) rows))
    ++ [CountLike; SelectSample].
Proof. apply main_executed. Qed.

(** X9: every update a run executes, whether it ends well or not, is for a
    row that was read and whose texts differ; it stores the stripped
    document of that row, which holds no [requiresProject] key. *)
Theorem updates_are_stripped_rows (rows : list config) (d : json) (i : string) :
  Update d i
  ∈ executed (snd (main floatstr raises now listcomp limit order (start rows))) ->
  exists c, c ∈ rows /\ i = config_id c
            /\ d = clean_configuration_data (config_data c)
            /\ dumps floatstr true (config_data c) <> dumps floatstr true d
            /\ mentions_target d = false.
Proof.
  intros Hin.
  destruct (main_executed floatstr raises now listcomp limit order rows)
    as [rest Hrest].
  assert (Update d i ∈ SelectAll :: stmts floatstr (arrange (order 2) rows)
                         ++ [CountLike; SelectSample])
    as Hfull by (rewrite Hrest; apply elem_of_app; by left).
  apply elem_of_cons in Hfull as [|Hfull]; [done|].
  apply elem_of_app in Hfull as [Hfull|Hfull].
  - apply elem_of_stmts in Hfull as (c & Hc & Hd & -> & ->). exists c.
    apply elem_of_arrange in Hc.
    split; [done|]. split; [done|]. split; [done|].
    split; [by apply differs_spec|apply clean_ok].
  - apply elem_of_cons in Hfull as [|Hfull]; [done|].
    apply elem_of_cons in Hfull as [|Hfull]; [done|].
    by apply elem_of_nil in Hfull.
Qed.


Lemma success_front (k : nat) (rows rows' : list config) :
  Success k ∉ banner rows ++ lines floatstr rows'.
Proof.
  intros Hin. apply elem_of_app in Hin as [Hin|Hin].
  - unfold banner in Hin.
    repeat (apply elem_of_cons in Hin as [Hin|Hin]; [done|]).
    by apply elem_of_nil in Hin.
  - unfold lines in Hin. apply list_elem_of_fmap in Hin as (c & Hc & _).
    by destruct (differs floatstr c).
Qed.

Lemma updates_of_stmts (rows : list config) :
  filter (fun s => is_update s = true) (stmts floatstr rows) = stmts floatstr rows
  /\ length (stmts floatstr rows) = writes floatstr rows.
Proof.
  unfold stmts, writes. rewrite length_map. split; [|done].
  induction (filter _ rows) as [|c l IH]; [done|].
  simpl. rewrite filter_cons_True by done. by rewrite IH.
Qed.

(** X11: the success line is printed only after the commit, and the number
    on it is the number of rows whose texts differ, which is the number of
    updates executed. *)
Theorem reported_count (rows : list config) (k : nat) :
  Success k
  ∈ console (snd (main floatstr raises now listcomp limit order (start rows))) ->
  k = writes floatstr rows
  /\ length (filter (fun s => is_update s = true)
                    (executed (snd (main floatstr raises now listcomp limit
                                         order (start rows)))))
     = k
  /\ first_raise raises (3 + writes floatstr rows) = None
  /\ commits floatstr raises listcomp limit (arrange (order 2) rows) = true.
Proof.
  destruct (updates_of_stmts (arrange (order 2) rows)) as [Hupd Hlen].
  pose proof (writes_perm floatstr _ _ (arrange_perm (order 2) rows)) as Hw.
  assert (commits floatstr raises listcomp limit (arrange (order 2) rows) = true
          -> first_raise raises (3 + writes floatstr rows) = None) as Hnone.
  { unfold commits. rewrite Hw. intros [_ H]%andb_true_iff.
    by destruct (first_raise raises _). }
  destruct (main_cases floatstr raises now listcomp limit order rows)
    as [(Hf & Hc & Hfit & Hr & ->)|[(Hf & Hc & ->)|[(Hf & Hc & ->)
       |[(n & Hn & Hf & Hc & ->)|[(Hf & Hc & Hfit & ->)|[(Hf & Hc & Hfit & ->)
       |[(Hf & Hc & Hfit & ->)|(Hf & Hc & Hfit & ->)]]]]]]];
    cbn [snd console executed]; intros Hin.
  - rewrite app_assoc in Hin. apply elem_of_app in Hin as [Hin|Hin];
      [by apply success_front in Hin|].
    assert (k = writes floatstr rows) as ->.
    { rewrite <- Hw. apply elem_of_app in Hin as [Hin|Hin].
      - apply elem_of_cons in Hin as [[= ->]|Hin]; [done|].
        apply elem_of_cons in Hin as [|Hin]; [done|].
        apply elem_of_cons in Hin as [Hin|Hin];
          [unfold verdict in Hin; by destruct (Nat.eqb _ 0)|].
        by apply elem_of_nil in Hin.
      - unfold sample_lines in Hin.
        destruct (head _) as [s|]; [|by apply elem_of_nil in Hin].
        destruct (get_path _ _) as [item|]; [|by apply elem_of_nil in Hin].
        destruct (truthy item); [|by apply elem_of_nil in Hin].
        apply elem_of_cons in Hin as [|Hin]; [done|].
        by apply elem_of_nil in Hin. }
    split; [done|]. split; [|by auto].
    rewrite filter_cons_False by done. rewrite filter_app, Hupd.
    rewrite !filter_cons_False by done.
    by rewrite filter_nil, app_nil_r, Hlen.
  - repeat (apply elem_of_cons in Hin as [Hin|Hin]; [done|]).
    by apply elem_of_nil in Hin.
  - repeat (apply elem_of_cons in Hin as [Hin|Hin]; [done|]).
    by apply elem_of_nil in Hin.
  - rewrite app_assoc in Hin. apply elem_of_app in Hin as [Hin|Hin];
      [by apply success_front in Hin|].
    apply elem_of_cons in Hin as [|Hin]; [done|]. by apply elem_of_nil in Hin.
  - rewrite app_assoc in Hin. apply elem_of_app in Hin as [Hin|Hin];
      [by apply success_front in Hin|].
    apply elem_of_cons in Hin as [|Hin]; [done|]. by apply elem_of_nil in Hin.
  - rewrite app_assoc in Hin. apply elem_of_app in Hin as [Hin|Hin];
      [by apply success_front in Hin|].
    apply elem_of_cons in Hin as [|Hin]; [done|]. by apply elem_of_nil in Hin.
  - rewrite app_assoc in Hin. apply elem_of_app in Hin as [Hin|Hin];
      [by apply success_front in Hin|].
    assert (k = writes floatstr rows) as ->.
    { rewrite <- Hw. apply elem_of_cons in Hin as [[= ->]|Hin]; [done|].
      repeat (apply elem_of_cons in Hin as [Hin|Hin]; [done|]).
      by apply elem_of_nil in Hin. }
    split; [done|]. split; [|by auto].
    rewrite filter_cons_False by done. by rewrite Hupd, Hlen.
  - rewrite app_assoc in Hin. apply elem_of_app in Hin as [Hin|Hin];
      [by apply success_front in Hin|].
    assert (k = writes floatstr rows) as ->.
    { rewrite <- Hw. apply elem_of_cons in Hin as [[= ->]|Hin]; [done|].
      apply elem_of_cons in Hin as [|Hin]; [done|].
      apply elem_of_cons in Hin as [Hin|Hin];
        [unfold verdict in Hin; by destruct (Nat.eqb _ 0)|].
      apply elem_of_cons in Hin as [|Hin]; [done|].
      by apply elem_of_nil in Hin. }
    split; [done|]. split; [|by auto].
    rewrite filter_cons_False by done. rewrite filter_app, Hupd.
    rewrite filter_cons_False by done.
    by rewrite filter_nil, app_nil_r, Hlen.
Qed.


End RunProperties.



Lemma updates_are_stripped_rows_witness :
  Update (clean_configuration_data scenario_A) "1"
  ∈ executed (snd (main (fun _ => "0.0") (fun _ => false) 7 1 998 backwards
                        (start two_rows)))
  /\ exists c, c ∈ two_rows /\ "1" = config_id c
               /\ clean_configuration_data scenario_A
                  = clean_configuration_data (config_data c)
               /\ dumps (fun _ => "0.0") true (config_data c)
                  <> dumps (fun _ => "0.0") true
                       (clean_configuration_data scenario_A)
               /\ mentions_target (clean_configuration_data scenario_A) = false.
Proof.
  assert (Update (clean_configuration_data scenario_A) "1"
          ∈ executed (snd (main (fun _ => "0.0") (fun _ => false) 7 1 998
                                backwards (start two_rows)))) as Hin
    by (right; left).
  split; [exact Hin|].
  exact (updates_are_stripped_rows (fun _ => "0.0") (fun _ => false) 7 1 998
           backwards two_rows _ _ Hin).
Defined.


Lemma reported_count_witness :
  Success 1 ∈ console (snd (main (fun _ => "0.0") (fun _ => false) 7 1 998
                                 backwards (start two_rows)))
  /\ 1 = writes (fun _ => "0.0") two_rows.
Proof.
  assert (Success 1 ∈ console (snd (main (fun _ => "0.0") (fun _ => false) 7
                                         1 998 backwards (start two_rows))))
    as Hin by (do 5 right; left).
  split; [exact Hin|].
  exact (proj1 (reported_count (fun _ => "0.0") (fun _ => false) 7 1 998
                  backwards two_rows 1 Hin)).
Defined.


Lemma mentions_dict_get k entries v :
  mentions_target (JObj entries) = false -> dict_get k entries = Some v ->
  mentions_target v = false.
Proof.
  simpl. induction entries as [|[k' v'] entries IH]; simpl; [done|].
  intros [Hkv Hrest]%orb_false_iff. apply orb_false_iff in Hkv as [_ Hv'].
  destruct (String.eqb k' k); [by intros [= <-]|by apply IH].
Qed.

Lemma mentions_lookup i items v :
  mentions_target (JArr items) = false -> items !! i = Some v ->
  mentions_target v = false.
Proof.
  simpl. revert i. induction items as [|x items IH]; intros i; [done|].
  simpl. intros [Hx Hrest]%orb_false_iff.
  destruct i as [|i]; simpl; [by intros [= <-]|by apply IH].
Qed.

Lemma mentions_get_path p : forall t v,
  mentions_target t = false -> get_path p t = Some v ->
  mentions_target v = false.
Proof.
  induction p as [|[k|i] p IH]; intros t v Hm; simpl.
  - by intros [= <-].
  - destruct t; try done.
    destruct (dict_get k entries) as [x|] eqn:Hget; [|done]. simpl.
    apply IH. by eapply mentions_dict_get.
  - destruct t; try done.
    destruct (items !! i) as [x|] eqn:Hi; [|done]. simpl.
    apply IH. by eapply mentions_lookup.
Qed.

Section SampleFacts.

Variable floatstr : spec_float -> string.
Variable raises : nat -> bool.
Variable now : Z.
Variable listcomp : nat.
Variable limit : nat.
Variable order : nat -> nat -> nat.

Lemma sample_front (v : json) (rows rows' : list config) :
  Sample v ∉ banner rows ++ lines floatstr rows'.
Proof.
  intros Hin. apply elem_of_app in Hin as [Hin|Hin].
  - unfold banner in Hin.
    repeat (apply elem_of_cons in Hin as [Hin|Hin]; [done|]).
    by apply elem_of_nil in Hin.
  - unfold lines in Hin. apply list_elem_of_fmap in Hin as (c & Hc & _).
    by destruct (differs floatstr c).
Qed.

(** X8: a sample is shown only by a run that nothing ends early; it is the
    item at [sections[0].items[0]] of a row of the table the run leaves,
    whichever the store answers with, it is truthy, and it holds no
    [requiresProject] key. *)
Theorem sample_is_clean (rows : list config) (v : json) :
  (forall c, c ∈ rows -> dict_ok (config_data c) = true) ->
  Sample v
  ∈ console (snd (main floatstr raises now listcomp limit order (start rows))) ->
  failure floatstr raises listcomp limit (arrange (order 2) rows) = None
  /\ (exists x,
        x ∈ table (snd (main floatstr raises now listcomp limit order
                             (start rows)))
        /\ get_path SAMPLE_PATH (config_data x) = Some v)
  /\ truthy v = true
  /\ mentions_target v = false.
Proof.
  intros Hok.
  destruct (main_cases floatstr raises now listcomp limit order rows)
    as [(Hf & Hc & Hfit & Hr & ->)|[(Hf & Hc & ->)|[(Hf & Hc & ->)
       |[(n & Hn & Hf & Hc & ->)|[(Hf & Hc & Hfit & ->)|[(Hf & Hc & Hfit & ->)
       |[(Hf & Hc & Hfit & ->)|(Hf & Hc & Hfit & ->)]]]]]]];
    cbn [snd console table]; intros Hin.
  - split; [done|].
    rewrite app_assoc in Hin. apply elem_of_app in Hin as [Hin|Hin];
      [by apply sample_front in Hin|].
    apply elem_of_app in Hin as [Hin|Hin].
    { apply elem_of_cons in Hin as [|Hin]; [done|].
      apply elem_of_cons in Hin as [|Hin]; [done|].
      apply elem_of_cons in Hin as [Hin|Hin];
        [unfold verdict in Hin; by destruct (Nat.eqb _ 0)|].
      by apply elem_of_nil in Hin. }
    unfold sample_lines in Hin.
    destruct (head (arrange _ _)) as [x|] eqn:Hhead;
      [|by apply elem_of_nil in Hin].
    destruct (get_path SAMPLE_PATH (config_data x)) as [item|] eqn:Hpath;
      [|by apply elem_of_nil in Hin].
    destruct (truthy item) eqn:Htruthy; [|by apply elem_of_nil in Hin].
    apply elem_of_cons in Hin as [[= ->]|Hin]; [|by apply elem_of_nil in Hin].
    assert (x ∈ applied floatstr now (arrange (order 2) rows) rows) as Hx.
    { apply head_Some_elem_of in Hhead. by apply elem_of_arrange in Hhead. }
    split; [by exists x|]. split; [done|].
    apply (mentions_get_path SAMPLE_PATH (config_data x)); [|done].
    apply (final_docs floatstr now (arrange (order 2) rows) rows x);
      [apply arrange_perm|done..].
  - repeat (apply elem_of_cons in Hin as [Hin|Hin]; [done|]).
    by apply elem_of_nil in Hin.
  - repeat (apply elem_of_cons in Hin as [Hin|Hin]; [done|]).
    by apply elem_of_nil in Hin.
  - rewrite app_assoc in Hin. apply elem_of_app in Hin as [Hin|Hin];
      [by apply sample_front in Hin|].
    apply elem_of_cons in Hin as [|Hin]; [done|]. by apply elem_of_nil in Hin.
  - rewrite app_assoc in Hin. apply elem_of_app in Hin as [Hin|Hin];
      [by apply sample_front in Hin|].
    apply elem_of_cons in Hin as [|Hin]; [done|]. by apply elem_of_nil in Hin.
  - rewrite app_assoc in Hin. apply elem_of_app in Hin as [Hin|Hin];
      [by apply sample_front in Hin|].
    apply elem_of_cons in Hin as [|Hin]; [done|]. by apply elem_of_nil in Hin.
  - rewrite app_assoc in Hin. apply elem_of_app in Hin as [Hin|Hin];
      [by apply sample_front in Hin|].
    repeat (apply elem_of_cons in Hin as [Hin|Hin]; [done|]).
    by apply elem_of_nil in Hin.
  - rewrite app_assoc in Hin. apply elem_of_app in Hin as [Hin|Hin];
      [by apply sample_front in Hin|].
    apply elem_of_cons in Hin as [|Hin]; [done|].
    apply elem_of_cons in Hin as [|Hin]; [done|].
    apply elem_of_cons in Hin as [Hin|Hin];
      [unfold verdict in Hin; by destruct (Nat.eqb _ 0)|].
    apply elem_of_cons in Hin as [|Hin]; [done|].
    by apply elem_of_nil in Hin.
Qed.

End SampleFacts.

Lemma sample_is_clean_witness :
  (forall c, c ∈ two_rows -> dict_ok (config_data c) = true)
  /\ Sample (JObj [("id", JInt 1); ("label", JStr "X")])
     ∈ console (snd (main (fun _ => "0.0") (fun _ => false) 7 1 998 as_stored
                          (start two_rows)))
  /\ mentions_target (JObj [("id", JInt 1); ("label", JStr "X")]) = false.
Proof.
  assert (forall c, c ∈ two_rows -> dict_ok (config_data c) = true) as Hok.
  { intros c Hc. unfold two_rows in Hc.
    repeat (apply elem_of_cons in Hc as [->|Hc]; [reflexivity|]).
    by apply elem_of_nil in Hc. }
  assert (Sample (JObj [("id", JInt 1); ("label", JStr "X")])
          ∈ console (snd (main (fun _ => "0.0") (fun _ => false) 7 1 998
                               as_stored (start two_rows)))) as Hin
    by (do 8 right; left).
  split; [exact Hok|]. split; [exact Hin|].
  exact (proj2 (proj2 (proj2
           (sample_is_clean (fun _ => "0.0") (fun _ => false) 7 1 998 as_stored
              two_rows _ Hok Hin)))).
Defined.
